(** * geneheatmap: the data pipeline of the clustered heatmap component

    A shallow embedding of [processExcelFile], [getSizeForPValue], the marker
    computation of [renderHeatmap] and [downloadProcessedData] of the
    ClusteredHeatmap component, in the version that validates its rows, and the
    properties its specification states about them; then of [handleFileUpload],
    [colorScale], and the selection, the export of a selection and the column
    and label layout of [renderHeatmap], with properties of their own.

    - JavaScript numbers are IEEE 754 binary64 values: they are Rocq's
      primitive floats, whose operations are the hardware ones.
    - Strings are [string]; a character stands for one UTF-16 code unit
      below 256.
    - A decoded spreadsheet row is an association list in [Object.keys] order;
      the object [groupedByCategory] is a [gmap] over property keys.
    - [processExcelFile] starts at the decoded table [rawData] and returns
      either the error it throws (which its caller hands to [setError]) or the
      object it hands to [setData].  Reading the file, logging and the
      [loading] flag are left out. *)

From Stdlib Require Import ZArith Floats String Ascii Bool Lia.
From stdpp Require Import base option list gmap strings pretty.

Set Warnings "-inexact-float".
Local Open Scope string_scope.
Local Open Scope list_scope.
Local Open Scope Z_scope.

(** ** JavaScript values and coercions *)

(** A spreadsheet cell as [XLSX.utils.sheet_to_json] delivers it: a number or a
    string.  An empty cell is an absent key ([undefined], here [None]). *)
Inductive cell : Type :=
  | CNum (n : float)
  | CStr (s : string).

(** A value that may also be [undefined] or [null]: what [gene.pValues[j]] and
    [gene.values[0]] evaluate to. *)
Inductive jsnum : Type :=
  | JUndefined
  | JNull
  | JNumber (n : float).

(** [ToNumber] on [jsnum]: [undefined] is NaN, [null] is +0. *)
Definition toNumber (v : jsnum) : float :=
  match v with
  | JUndefined => PrimFloat.nan
  | JNull => PrimFloat.zero
  | JNumber n => n
  end.

(** The relational operators [a < b] and [a >= b] on numbers.  Both are false
    when an operand is NaN. *)
Definition jsLt (a b : float) : bool := PrimFloat.ltb a b.
Definition jsGe (a b : float) : bool := PrimFloat.leb b a.

(** [ToBoolean]: a number is falsy when it is +0, -0 or NaN, a string when it
    is empty. *)
Definition truthy (c : cell) : bool :=
  match c with
  | CNum n => negb (PrimFloat.is_zero n || PrimFloat.is_nan n)
  | CStr s => negb (String.eqb s "")
  end.

(** [a || b] on possibly undefined cells. *)
Definition jsOr (a b : option cell) : option cell :=
  match a with
  | Some c => if truthy c then a else b
  | None => b
  end.

(** [!v] on a possibly undefined cell. *)
Definition jsNot (v : option cell) : bool :=
  match v with
  | Some c => negb (truthy c)
  | None => true
  end.

(** Strict equality [a === b] of two cells: same type and same value; numbers
    compare as IEEE values (NaN differs from itself, +0 equals -0). *)
Definition strictEq (a b : cell) : bool :=
  match a, b with
  | CNum x, CNum y => PrimFloat.eqb x y
  | CStr s, CStr t => String.eqb s t
  | _, _ => false
  end.

(** [SameValueZero], the equality of [Set]: as [===], but NaN equals NaN. *)
Definition sameValueZero (a b : cell) : bool :=
  match a, b with
  | CNum x, CNum y => PrimFloat.eqb x y || (PrimFloat.is_nan x && PrimFloat.is_nan y)
  | CStr s, CStr t => String.eqb s t
  | _, _ => false
  end.

(** ** Strings *)

Definition codeUnit (c : ascii) : N := N_of_ascii c.

(** The white space of [String.prototype.trim] and of the regular expression
    class [\s], among code units below 256: TAB, LF, VT, FF, CR, SPACE, NBSP. *)
Definition isWhiteSpace (c : ascii) : bool :=
  let n := codeUnit c in
  ((9 <=? n) && (n <=? 13))%N || (n =? 32)%N || (n =? 160)%N.

(** The line terminators, which [.] does not match: LF and CR. *)
Definition isLineTerminator (c : ascii) : bool :=
  let n := codeUnit c in (n =? 10)%N || (n =? 13)%N.

Fixpoint trimStart (s : string) : string :=
  match s with
  | EmptyString => EmptyString
  | String c r => if isWhiteSpace c then trimStart r else s
  end.

Fixpoint trimEnd (s : string) : string :=
  match s with
  | EmptyString => EmptyString
  | String c r =>
      match trimEnd r with
      | EmptyString => if isWhiteSpace c then EmptyString else String c EmptyString
      | r' => String c r'
      end
  end.

(** [s.trim()]. *)
Definition trim (s : string) : string := trimEnd (trimStart s).

(** [toLowerCase] of one code unit below 256: A-Z and the Latin-1 capitals. *)
Definition lowerChar (c : ascii) : ascii :=
  let n := codeUnit c in
  if ((65 <=? n) && (n <=? 90))%N
     || ((192 <=? n) && (n <=? 222) && negb (n =? 215))%N
  then ascii_of_N (n + 32) else c.

Fixpoint toLowerCase (s : string) : string :=
  match s with
  | EmptyString => EmptyString
  | String c r => String (lowerChar c) (toLowerCase r)
  end.

(** [hay.includes(needle)]. *)
Fixpoint includes (hay needle : string) : bool :=
  String.prefix needle hay ||
  match hay with
  | EmptyString => false
  | String _ r => includes r needle
  end.

(** The canonical form under which an ignore-case pattern compares characters.
    Without the unicode flag a code unit of 128 or more never folds to an ASCII
    one, so against an ASCII pattern only the ASCII letters fold. *)
Definition canonicalize (c : ascii) : ascii :=
  let n := codeUnit c in
  if ((97 <=? n) && (n <=? 122))%N then ascii_of_N (n - 32) else c.

(** Matching a literal at the start of the input, ignoring case: the rest of
    the input after it. *)
Fixpoint stripLiteral (lit s : string) : option string :=
  match lit, s with
  | EmptyString, _ => Some s
  | String a lit', String b s' =>
      if Ascii.eqb (canonicalize a) (canonicalize b) then stripLiteral lit' s' else None
  | String _ _, EmptyString => None
  end.

(** [(.+)\)$] on what follows the opening parenthesis: the capture is
    everything but the last character, which must be the closing parenthesis;
    the capture is not empty and holds no line terminator. *)
Fixpoint captureToEnd (s : string) : option string :=
  match s with
  | EmptyString => None
  | String c r =>
      match r with
      | EmptyString => None
      | String d EmptyString =>
          if Ascii.eqb d ")" && negb (isLineTerminator c)
          then Some (String c EmptyString) else None
      | String _ _ =>
          if isLineTerminator c then None
          else match captureToEnd r with
               | Some x => Some (String c x)
               | None => None
               end
      end
  end.

(** The regular expression [/^<marker>\s*\((.+)\)$/i]: the first capture group
    of the match, if the header matches. *)
Definition matchMarker (marker header : string) : option string :=
  match stripLiteral marker header with
  | Some rest =>
      match trimStart rest with
      | String "(" body => captureToEnd body
      | _ => None
      end
  | None => None
  end.

Definition comparisonPattern : string -> option string := matchMarker "Log2FC".
Definition pValuePattern : string -> option string := matchMarker "P value".

(** [pattern.test(h)]. *)
Definition test (pattern : string -> option string) (h : string) : bool :=
  match pattern h with Some _ => true | None => false end.

(** ** The data model *)

(** A decoded row: header and cell, in the order [Object.keys] lists them. *)
Definition Row : Type := list (string * cell).

(** [row[key]]: [None] is [undefined]. *)
Fixpoint get (row : Row) (key : string) : option cell :=
  match row with
  | [] => None
  | (k, v) :: r => if String.eqb k key then Some v else get r key
  end.

(** The gene object [processExcelFile] builds for a row.  [null] entries of
    [values] and [pValues] are [None]. *)
Record gene : Type := mkGene {
  id : cell;
  category : cell;
  values : list (option float);
  pValues : list (option float)
}.

(** One entry of [categoryGroups]; [groupCategory] is its [category] field. *)
Record categoryGroup : Type := mkGroup {
  groupCategory : cell;
  startIndex : Z;
  endIndex : Z;
  count : Z
}.

(** The object handed to [setData]. *)
Record dataset : Type := mkData {
  genes : list gene;
  comparisons : list string;
  comparisonColumns : list string;
  pValueColumns : list string;
  categoryGroups : list categoryGroup;
  categories : list cell
}.

(** The errors [processExcelFile] throws, one per message. *)
Inductive pipelineError : Type :=
  | NoDataFound            (* 'No data found in the sheet' *)
  | NoHeadersFound         (* 'No headers found in the Excel file' *)
  | NoComparisonColumns    (* 'No comparison columns found. ...' *)
  | NoValidGeneData        (* 'No valid gene data found in the file' *)
  | NoValidGeneIds.        (* 'No valid Gene IDs found in the file' *)

(** The two kinds of fatal error of the specification: a schema error is about
    the headers, a data error about the rows. *)
Inductive errorKind : Type := SchemaError | DataError.

Definition kindOf (e : pipelineError) : errorKind :=
  match e with
  | NoHeadersFound | NoComparisonColumns => SchemaError
  | NoDataFound | NoValidGeneData | NoValidGeneIds => DataError
  end.

(** [[...new Set(l)]]: the distinct values of [l] under [SameValueZero], in
    order of first occurrence. *)
Definition addToSet (acc : list cell) (c : cell) : list cell :=
  if existsb (sameValueZero c) acc then acc else acc ++ [c].

Definition setOf (l : list cell) : list cell := fold_left addToSet l [].

(** [Array.prototype.sort(comparefn)].  The language fixes the order only when
    the comparison function is consistent on the elements: the sort is then
    stable and puts [a] before [b] when [comparefn(a, b) < 0], a NaN result
    counting as 0.  When it is not consistent the order is the engine's own,
    and the language asks for no more than a permutation.  The comparison
    function of the pipeline is not consistent when a first value is NaN (a
    fold-change cell that holds no number) or missing: every difference with
    it is NaN.

    The model is the stable insertion sort.  On a consistent comparison
    function this is the order of every conforming engine.  On the others it
    is one of the permutations the language allows, and an engine may return
    another one.  The statements that name an order are about tables whose
    first values are numbers; all the others rest on [arraySort_perm] alone
    and hold for whatever permutation the engine returns. *)
Section ArraySort.
Context {A : Type} (comparefn : A -> A -> float).

Fixpoint insertSorted (x : A) (l : list A) : list A :=
  match l with
  | [] => [x]
  | y :: l' =>
      if jsLt PrimFloat.zero (comparefn x y) then y :: insertSorted x l' else x :: l
  end.

Definition arraySort (l : list A) : list A := foldr insertSorted [] l.
End ArraySort.

(** [gene.values[0]] as a number operand. *)
Definition firstValue (g : gene) : jsnum :=
  match values g with
  | [] => JUndefined
  | None :: _ => JNull
  | Some n :: _ => JNumber n
  end.

(** The comparison function of the per-category sort:
    [a.values[0] - b.values[0]]. *)
Definition byFirstValue (a b : gene) : float :=
  PrimFloat.sub (toNumber (firstValue a)) (toNumber (firstValue b)).

(** *** Category groups *)

(** The variables of the scan that builds [categoryGroups];
    [currentCategory = None] is [null]. *)
Record scanState : Type := mkScan {
  currentCategory : option cell;
  scanStart : Z;
  groupsSoFar : list categoryGroup
}.

(** [gene.category !== currentCategory]. *)
Definition differsFrom (c : cell) (current : option cell) : bool :=
  match current with
  | None => true
  | Some c' => negb (strictEq c c')
  end.

(** The body of [sortedGeneData.forEach((gene, index) => ...)]. *)
Definition scanStep (st : scanState) (g : gene) (index : Z) : scanState :=
  if differsFrom (category g) (currentCategory st) then
    mkScan (Some (category g)) index
      (match currentCategory st with
       | Some c => groupsSoFar st ++ [mkGroup c (scanStart st) (index - 1) (index - scanStart st)]
       | None => groupsSoFar st
       end)
  else st.

Fixpoint scanFrom (l : list gene) (index : Z) (st : scanState) : scanState :=
  match l with
  | [] => st
  | g :: l' => scanFrom l' (index + 1) (scanStep st g index)
  end.

(** The category groups of a final gene sequence: the scan, then the last
    group. *)
Definition categoryGroupsOf (sortedGeneData : list gene) : list categoryGroup :=
  let st := scanFrom sortedGeneData 0 (mkScan None 0 []) in
  let len := Z.of_nat (length sortedGeneData) in
  match currentCategory st with
  | Some c => groupsSoFar st ++ [mkGroup c (scanStart st) (len - 1) (len - scanStart st)]
  | None => groupsSoFar st
  end.

(** ** processExcelFile *)

Section Pipeline.

(** Two built-ins of the engine are taken as given: [Number::toString], which
    turns a number used as a property key into a string, and [parseFloat] on
    strings. *)
Variable numberToString : float -> string.
Variable parseFloatStr : string -> float.

(** The property key under which [obj[c]] reads and writes. *)
Definition propertyKey (c : cell) : string :=
  match c with
  | CStr s => s
  | CNum n => numberToString n
  end.

(** [parseFloat(val)] on a cell.  A number is first turned into a string and
    then read back: it comes back unchanged, except that -0 comes back as
    +0. *)
Definition parseFloat (val : cell) : float :=
  match val with
  | CNum n => if PrimFloat.is_zero n then PrimFloat.zero else n
  | CStr s => parseFloatStr s
  end.

(** [val !== undefined && val !== null && val !== '' ? parseFloat(val) : null]. *)
Definition numericOrNull (val : option cell) : option float :=
  match val with
  | None => None
  | Some (CStr s) => if String.eqb s "" then None else Some (parseFloat (CStr s))
  | Some c => Some (parseFloat c)
  end.

(** [Object.keys(rawData[0] || {})]. *)
Definition headersOf (rawData : list Row) : list string :=
  match rawData with
  | [] => []
  | r :: _ => map fst r
  end.

Definition comparisonsOf (headers : list string) : list string :=
  List.filter (test comparisonPattern) headers.

(** [match ? match[1].trim() : h]. *)
Definition shortName (h : string) : string :=
  match comparisonPattern h with
  | Some x => trim x
  | None => h
  end.

Definition pValueColumnsOf (headers : list string) : list string :=
  List.filter (test pValuePattern) headers.

(** [headers.find(h => h.toLowerCase().includes('category'))]. *)
Definition categoryColOf (headers : list string) : option string :=
  List.find (fun h => includes (toLowerCase h) "category") headers.

(** [gene[categoryCol]]: an undefined [categoryCol] reads the property named
    "undefined". *)
Definition categoryCell (categoryCol : option string) (row : Row) : option cell :=
  get row (match categoryCol with Some h => h | None => "undefined" end).

(** The identifier of a row after [trim]:
    [gene['Gene ID'] || gene['GeneID'] || gene['gene_id']], trimmed when it is
    a string. *)
Definition geneIdOf (row : Row) : option cell :=
  match jsOr (jsOr (get row "Gene ID") (get row "GeneID")) (get row "gene_id") with
  | Some (CStr s) => Some (CStr (trim s))
  | other => other
  end.

(** The body of [rawData.forEach((gene, index) => ...)]: the gene pushed on
    [geneData], or [None] when the row is skipped. *)
Definition geneOfRow (comparisons pValueCols : list string) (categoryCol : option string)
    (row : Row) : option gene :=
  let geneId := geneIdOf row in
  if jsNot geneId then None
  else match geneId with
       | Some geneId =>
           Some (mkGene geneId
             (match jsOr (categoryCell categoryCol row) (Some (CStr "Uncategorized")) with
              | Some c => c
              | None => CStr "Uncategorized"
              end)
             (map (fun comp => numericOrNull (get row comp)) comparisons)
             (map (fun comp => numericOrNull (get row comp)) pValueCols))
       | None => None
       end.

Definition geneDataOf (comparisons pValueCols : list string) (categoryCol : option string)
    (rawData : list Row) : list gene :=
  omap (geneOfRow comparisons pValueCols categoryCol) rawData.

(** [geneData.filter(gene => gene.category === category)]. *)
Definition genesInCategory (geneData : list gene) (c : cell) : list gene :=
  List.filter (fun g => strictEq (category g) c) geneData.

(** The first [categories.forEach]: [groupedByCategory[category] = genesInCategory]
    when the group is not empty.  [groupedByCategory] is a plain object, so the
    category is turned into a property key. *)
Definition groupStep (geneData : list gene) (grouped : gmap string (list gene)) (c : cell)
    : gmap string (list gene) :=
  let g := genesInCategory geneData c in
  if (0 <? Z.of_nat (length g)) then <[propertyKey c := g]> grouped else grouped.

Definition groupedByCategoryOf (geneData : list gene) (cats : list cell)
    : gmap string (list gene) :=
  fold_left (groupStep geneData) cats ∅.

(** The second [categories.forEach]: the group stored under the category is
    sorted in place and appended to [sortedGeneData]. *)
Definition sortStep (acc : gmap string (list gene) * list gene) (c : cell)
    : gmap string (list gene) * list gene :=
  match acc.1 !! propertyKey c with
  | None => acc
  | Some categoryGenes =>
      let sorted := arraySort byFirstValue categoryGenes in
      (<[propertyKey c := sorted]> acc.1, acc.2 ++ sorted)
  end.

Definition sortedGeneDataOf (geneData : list gene) : list gene :=
  let cats := setOf (map category geneData) in
  (fold_left sortStep cats (groupedByCategoryOf geneData cats, [])).2.

(** [missingGenes] is declared empty and never pushed to. *)
Definition missingGenes : list Row := [].

(** The pipeline from the decoded table [rawData] to the argument of
    [setData], or the error thrown on the way. *)
Definition processExcelFile (rawData : list Row) : pipelineError + dataset :=
  if (Z.of_nat (length rawData) =? 0) then inl NoDataFound else
  let headers := headersOf rawData in
  if (Z.of_nat (length headers) =? 0) then inl NoHeadersFound else
  let comps := comparisonsOf headers in
  if (Z.of_nat (length comps) =? 0) then inl NoComparisonColumns else
  let shortNames := map shortName comps in
  let pValueCols := pValueColumnsOf headers in
  let categoryCol := categoryColOf headers in
  let geneData := geneDataOf comps pValueCols categoryCol rawData in
  if (Z.of_nat (length geneData) =? 0) then inl NoValidGeneData else
  if (0 <? Z.of_nat (length missingGenes))
     && (Z.of_nat (length missingGenes) =? Z.of_nat (length rawData))
  then inl NoValidGeneIds else
  let sortedGeneData := sortedGeneDataOf geneData in
  inr (mkData sortedGeneData shortNames comps pValueCols
         (categoryGroupsOf sortedGeneData)
         (setOf (map category sortedGeneData))).

(** ** The significance marker *)

(** [getSizeForPValue]: the radius of the circle of a significant cell. *)
Definition getSizeForPValue (pValue : jsnum) : Z :=
  if jsGe (toNumber pValue) 0.05%float then 0
  else if jsLt (toNumber pValue) 0.01%float then 5
  else 3.

(** [gene.pValues[j]]. *)
Definition pValueAt (g : gene) (j : nat) : jsnum :=
  match pValues g !! j with
  | None => JUndefined
  | Some None => JNull
  | Some (Some n) => JNumber n
  end.

(** What [renderHeatmap] computes for a cell from its p-value. *)
Definition isSignificant (pValue : jsnum) : bool := jsLt (toNumber pValue) 0.05%float.

Definition isMarginal (pValue : jsnum) : bool :=
  jsGe (toNumber pValue) 0.05%float && jsLt (toNumber pValue) 0.1%float.

Definition circleRadius (pValue : jsnum) : Z :=
  if isSignificant pValue then getSizeForPValue pValue
  else if isMarginal pValue then 2 else 0.

(** The circle is drawn when [(isSignificant || isMarginal)]. *)
Definition circleDrawn (pValue : jsnum) : bool := isSignificant pValue || isMarginal pValue.

(** Its fill: black for a significant cell, grey for a marginal one. *)
Definition circleFill (pValue : jsnum) : string :=
  if isSignificant pValue then "black" else "#888".

(** ** downloadProcessedData *)

(** An object under construction: properties in creation order; a property may
    hold [undefined]. *)
Definition jsObject : Type := list (string * option cell).

(** [obj[key] = v]: an existing property keeps its place. *)
Fixpoint setProp (obj : jsObject) (key : string) (v : option cell) : jsObject :=
  match obj with
  | [] => [(key, v)]
  | (k, w) :: r => if String.eqb k key then (k, v) :: r else (k, w) :: setProp r key v
  end.

(** [v !== undefined && v !== null ? v : "N/A"]. *)
Definition orNA (v : option float) : cell :=
  match v with
  | Some n => CNum n
  | None => CStr "N/A"
  end.

Definition log2fcHeader (name : string) : string := ("Log2FC (" ++ name ++ ")")%string.
Definition pvalueHeader (name : string) : string := ("P-value (" ++ name ++ ")")%string.

Definition exportHeaders (data : dataset) : list string :=
  ["Gene ID"; "Category"] ++ map log2fcHeader (comparisons data)
    ++ map pvalueHeader (comparisons data).

(** The body of [data.comparisons.forEach((name, i) => ...)]. *)
Fixpoint exportColumns (names : list string) (i : nat) (log2fc pvals : list cell)
    (obj : jsObject) : jsObject :=
  match names with
  | [] => obj
  | name :: names' =>
      exportColumns names' (S i) log2fc pvals
        (setProp (setProp obj (log2fcHeader name) (log2fc !! i)) (pvalueHeader name) (pvals !! i))
  end.

(** One element of [outRows]. *)
Definition exportRow (data : dataset) (g : gene) : jsObject :=
  exportColumns (comparisons data) 0 (map orNA (values g)) (map orNA (pValues g))
    [("Gene ID", Some (id g)); ("Category", Some (category g))].

(** The headers without their repetitions, each at its first occurrence. *)
Fixpoint firstOccurrences (seen headers : list string) : list string :=
  match headers with
  | [] => []
  | h :: r =>
      if existsb (String.eqb h) seen then firstOccurrences seen r
      else h :: firstOccurrences (h :: seen) r
  end.

(** The spreadsheet collaborator, taken to be lossless: [json_to_sheet] lays the
    objects out under the header sequence (a repeated header takes the column of
    its first occurrence), an undefined property leaves its cell empty, and
    [sheet_to_json] reads every row back as the cells that are not empty, in
    column order. *)
Definition readBackRow (headers : list string) (obj : jsObject) : Row :=
  omap (fun h => match List.find (fun kv => String.eqb kv.1 h) obj with
                 | Some (_, Some v) => Some (h, v)
                 | _ => None
                 end) (firstOccurrences [] headers).

(** The table a later upload of the exported workbook decodes to. *)
Definition exportedTable (data : dataset) : list Row :=
  map (fun g => readBackRow (exportHeaders data) (exportRow data g)) (genes data).

(** ** The renderer's layout and selection *)

(** [Array.prototype.findIndex]: [None] is -1. *)
Fixpoint findIndex {A : Type} (P : A -> bool) (l : list A) : option nat :=
  match l with
  | [] => None
  | x :: r => if P x then Some 0%nat else option_map S (findIndex P r)
  end.

(** [l.filter((_, k) => keep(k))], the indices starting at [k]. *)
Fixpoint filterIndex {A : Type} (keep : nat -> bool) (k : nat) (l : list A) : list A :=
  match l with
  | [] => []
  | x :: r => if keep k then x :: filterIndex keep (S k) r else filterIndex keep (S k) r
  end.

(** An element [{row, col}] of [selectedCells]. *)
Record cellRef : Type := mkCell { row : nat; col : nat }.

(** [c.row === i && c.col === j]. *)
Definition isCell (i j : nat) (c : cellRef) : bool :=
  Nat.eqb (row c) i && Nat.eqb (col c) j.

(** [handleCellClick]: the next value of [selectedCells]. *)
Definition handleCellClick (selectedCells : list cellRef) (i j : nat) : list cellRef :=
  match findIndex (isCell i j) selectedCells with
  | Some idx => filterIndex (fun k => negb (Nat.eqb k idx)) 0 selectedCells
  | None => selectedCells ++ [mkCell i j]
  end.

(** What [exportSelection] does: it returns at once, it throws (a selected row
    is not a row of [data.genes]), or it writes a sheet of [headers] and
    [outRows]. *)
Inductive exportOutcome : Type :=
  | NothingExported
  | ExportThrows
  | SheetWritten (headers : list string) (outRows : list jsObject).

(** [selectedCells.map(c => data.genes[c.row].id)]. *)
Fixpoint selectedIds (genes : list gene) (selectedCells : list cellRef) : option (list cell) :=
  match selectedCells with
  | [] => Some []
  | c :: r =>
      match genes !! row c with
      | None => None
      | Some g => option_map (cons (id g)) (selectedIds genes r)
      end
  end.

(** [selectedGenes.includes(g.id)]. *)
Definition includesCell (l : list cell) (c : cell) : bool := existsb (sameValueZero c) l.

Definition exportSelection (selectedCells : list cellRef) (data : dataset) : exportOutcome :=
  if Nat.eqb (length selectedCells) 0 then NothingExported
  else match selectedIds (genes data) selectedCells with
       | None => ExportThrows
       | Some ids =>
           let selectedGenes := setOf ids in
           let rows := List.filter (fun g => includesCell selectedGenes (id g)) (genes data) in
           SheetWritten (exportHeaders data) (map (exportRow data) rows)
       end.

(** [obj[key]] on an object under construction. *)
Definition getProp (obj : jsObject) (key : string) : option cell :=
  match List.find (fun kv => String.eqb kv.1 key) obj with
  | Some (_, v) => v
  | None => None
  end.

(** The rows the label box of a category covers: from
    [firstGeneIndex = data.genes.findIndex(gene => gene.category === category)]
    over [genesInCategory = data.genes.filter(...).length] rows; no box when
    [firstGeneIndex === -1]. *)
Definition categoryBox (genes : list gene) (c : cell) : option (nat * nat) :=
  match findIndex (fun g => strictEq (category g) c) genes with
  | None => None
  | Some firstGeneIndex => Some (firstGeneIndex, length (genesInCategory genes c))
  end.

(** [getCategoryColor].  [category.includes] exists on strings only: on a
    number the call throws ([None]). *)
Definition getCategoryColor (c : cell) : option string :=
  match c with
  | CNum _ => None
  | CStr s =>
      Some (if includes s "Cholesterol" then "#e6f7ff"
            else if includes s "Fatty Acid" then "#e6ffe6"
            else if includes s "Triglyceride" then "#fff2e6"
            else if includes s "Immune" then "#ffe6e6"
            else if includes s "Carbohydrate" then "#f9f9e6"
            else "#f0f0f0")
  end.

(** [Math.max(a, b)]: NaN when an operand is NaN, else the larger one, +0
    counting as larger than -0. *)
Definition mathMax (a b : float) : float :=
  if PrimFloat.is_nan a || PrimFloat.is_nan b then PrimFloat.nan
  else if PrimFloat.ltb a b then b
  else if PrimFloat.ltb b a then a
  else match PrimFloat.classify a with
       | NZero => b
       | _ => a
       end.

(** [arr[i]] as a number operand: an index out of range reads [undefined]. *)
Definition numberAt (arr : list float) (i : nat) : float :=
  match arr !! i with
  | Some w => w
  | None => PrimFloat.nan
  end.

(** The body of [colWidths.reduce((acc, w, i) => ...)]:
    [acc.push(i === 0 ? 0 : acc[i-1] + colWidths[i-1])]. *)
Definition colXStep (colWidths : list float) (acc : list float) (i : nat) : list float :=
  acc ++ [match i with
          | O => PrimFloat.zero
          | S k => PrimFloat.add (numberAt acc k) (numberAt colWidths k)
          end].

(** [colX]: the x position of every column. *)
Definition colX (colWidths : list float) : list float :=
  fold_left (colXStep colWidths) (seq 0 (length colWidths)) [].

(** [colWidths.reduce((a, b) => a + b, 0)]. *)
Definition totalColsWidth (colWidths : list float) : float :=
  fold_left PrimFloat.add colWidths PrimFloat.zero.

Definition minColWidth : float := 50%float.

(** An array of widths with its holes: [None] is an index never written. *)
Definition widthArray : Type := list (option float).

(** [arr[i] = v] on a copy: an index past the end extends the array, leaving
    holes. *)
Definition setIndex (arr : widthArray) (i : nat) (v : float) : widthArray :=
  if (i <? length arr)%nat then <[i := Some v]> arr
  else arr ++ replicate (i - length arr) None ++ [Some v].

(** The refs of a column resize: [resizingCol.current] ([None] is [null]),
    [startX.current] and [startWidth.current]. *)
Record resizeRefs : Type := mkRefs {
  resizingCol : option nat;
  startX : float;
  startWidth : float
}.

(** [handleResizerMouseMove]: the next value of [colWidthsState] when the
    pointer is at [clientX].  [prev] is an array: the effect that follows the
    upload has set [colWidthsState] by the time a resizer is drawn. *)
Definition handleResizerMouseMove (refs : resizeRefs) (clientX : float) (prev : widthArray)
    : widthArray :=
  match resizingCol refs with
  | None => prev
  | Some idx =>
      let delta := PrimFloat.sub clientX (startX refs) in
      setIndex prev idx (mathMax minColWidth (PrimFloat.add (startWidth refs) delta))
  end.

(** [text.split(' ')]. *)
Fixpoint splitSpaces (text : string) : list string :=
  match text with
  | EmptyString => [EmptyString]
  | String c r =>
      if Ascii.eqb c " " then EmptyString :: splitSpaces r
      else match splitSpaces r with
           | [] => [String c EmptyString]
           | w :: ws => String c w :: ws
           end
  end.

(** [lines.join(' ')]. *)
Fixpoint joinSpaces (lines : list string) : string :=
  match lines with
  | [] => EmptyString
  | [l] => l
  | l :: r => (l ++ " " ++ joinSpaces r)%string
  end.

(** A non-empty string is truthy. *)
Definition nonEmpty (s : string) : bool := negb (String.eqb s "").

(** The canvas measures text: [measureTextWidth(text, font)] is taken as
    given. *)
Section HeaderLines.
Variable measureTextWidth : string -> string -> float.

(** The body of [words.forEach(word => ...)] in [wrapHeaderText]; the state is
    [lines] and [line]. *)
Definition wrapStep (maxWidth : float) (font : string) (st : list string * string)
    (word : string) : list string * string :=
  let testLine := if nonEmpty st.2 then (st.2 ++ " " ++ word)%string else word in
  if jsLt (PrimFloat.sub maxWidth 8%float) (measureTextWidth testLine font) && nonEmpty st.2
  then (st.1 ++ [st.2], word)
  else (st.1, testLine).

(** [wrapHeaderText(text, maxWidth, font)]. *)
Definition wrapHeaderText (text : string) (maxWidth : float) (font : string) : list string :=
  let st := fold_left (wrapStep maxWidth font) (splitSpaces text) ([], EmptyString) in
  if nonEmpty st.2 then st.1 ++ [st.2] else st.1.

End HeaderLines.

(** ** handleFileUpload *)

(** The selected file: its name, its size in bytes, and the table the first
    sheet decodes to ([None] when the workbook cannot be read, has no sheet, or
    its first sheet is missing). *)
Record fileInfo : Type := mkFile {
  fileName : string;
  fileSize : Z;
  fileRows : option (list Row)
}.

(** What [setError] is called with, one constructor per message.  The errors
    of the pipeline arrive behind the prefix 'Failed to process gene expression
    data: ', and [NoDataFound] behind 'Failed to read Excel file: ' as well. *)
Inductive uploadError : Type :=
  | NoFileSelected          (* 'No file selected' *)
  | InvalidFileType         (* 'Invalid file type. Please upload an Excel file ...' *)
  | FileTooLarge            (* 'File is too large. Maximum size is 10MB' *)
  | FailedToRead            (* 'Failed to process ...: Failed to read Excel file: ...' *)
  | FailedToProcess (e : pipelineError).

(** The state of the component that an upload touches. *)
Record appState : Type := mkApp {
  data : option dataset;
  loading : bool;
  error : option uploadError;
  file : option fileInfo
}.

(** [/\.(xlsx|xls)$/i] matched at the start of [s]. *)
Definition extensionAt (s : string) : bool :=
  match stripLiteral ".xlsx" s with
  | Some EmptyString => true
  | _ => match stripLiteral ".xls" s with
         | Some EmptyString => true
         | _ => false
         end
  end.

(** [name.match(/\.(xlsx|xls)$/i)]: the pattern is searched at every
    position. *)
Fixpoint matchesExcelName (s : string) : bool :=
  extensionAt s ||
  match s with
  | EmptyString => false
  | String _ r => matchesExcelName r
  end.

(** [handleFileUpload], followed to the end of [processExcelFile]: the state
    once the upload has settled. *)
Definition handleFileUpload (st : appState) (selectedFile : option fileInfo) : appState :=
  match selectedFile with
  | None => mkApp (data st) (loading st) (Some NoFileSelected) (file st)
  | Some f =>
      if negb (matchesExcelName (fileName f))
      then mkApp (data st) false (Some InvalidFileType) (Some f)
      else if (10 * 1024 * 1024 <? fileSize f)
      then mkApp (data st) false (Some FileTooLarge) (Some f)
      else match fileRows f with
           | None => mkApp (data st) false (Some FailedToRead) (Some f)
           | Some rawData =>
               match processExcelFile rawData with
               | inl e => mkApp (data st) false (Some (FailedToProcess e)) (Some f)
               | inr d => mkApp (Some d) false None (Some f)
               end
           end
  end.

(** ** colorScale *)

(** [Math.min(a, b)]: NaN when an operand is NaN, else the smaller one, -0
    counting as smaller than +0. *)
Definition mathMin (a b : float) : float :=
  if PrimFloat.is_nan a || PrimFloat.is_nan b then PrimFloat.nan
  else if PrimFloat.ltb a b then a
  else if PrimFloat.ltb b a then b
  else match PrimFloat.classify a with
       | NZero => a
       | _ => b
       end.

Section ColorScale.

(** [Math.log2] and the d3 collaborators are taken as given: the colour ramps
    [d3.interpolateReds] and [d3.interpolateBlues], and of [d3.scaleQuantile]
    the bin: [quantileBin domain n x] is the index, among the [n] quantiles of
    [domain], that the scale finds for the number [x] ([None] when it finds
    none: d3 answers [undefined] for NaN).  The breakpoints are d3's; the
    scale answers with the element of its range at that index. *)
Variable log2 : float -> float.
Variable interpolateReds : float -> string.
Variable interpolateBlues : float -> string.
Variable quantileBin : list (option float) -> nat -> float -> option nat.

(** [d3.scaleQuantile().domain(domain).range(range)(x)]. *)
Definition scaleQuantile (domain : list (option float)) (range : list string) (x : float)
    : option string :=
  match quantileBin domain (length range) x with
  | Some k => range !! k
  | None => None
  end.

(** The end of [colorScale]: [intensity = Math.min(Math.abs(v) / 3, 1)] on the
    red ramp when [v > 0], on the blue ramp otherwise. *)
Definition ramp (v : float) : string :=
  let intensity := mathMin (PrimFloat.div (PrimFloat.abs v) 3%float) 1%float in
  if jsLt PrimFloat.zero v then interpolateReds intensity else interpolateBlues intensity.

(** [colorScale(value)].  It reads the state [colorScaleType] and [data], and
    in quantile mode the array [d3.schemeRdBu[7]], which is one array shared by
    all calls: [reverse()] reverses it in place and returns it.  The result is
    the colour ([None] is [undefined]) and the array as the call leaves it. *)
Definition colorScale (colorScaleType : string) (data : option dataset)
    (schemeRdBu7 : list string) (value : jsnum) : option string * list string :=
  match value with
  | JUndefined | JNull => (Some "#f9f9f9", schemeRdBu7)
  | JNumber value =>
      if String.eqb colorScaleType "log" then
        let v :=
          if PrimFloat.eqb value PrimFloat.zero then PrimFloat.zero
          else if jsLt PrimFloat.zero value
               then log2 (PrimFloat.add (PrimFloat.abs value) 1%float)
               else PrimFloat.opp (log2 (PrimFloat.add (PrimFloat.abs value) 1%float)) in
        (Some (ramp v), schemeRdBu7)
      else
        match String.eqb colorScaleType "quantile", data with
        | true, Some data =>
            let allVals := flat_map values (genes data) in
            let range := reverse schemeRdBu7 in
            (scaleQuantile allVals range value, range)
        | _, _ => (Some (ramp value), schemeRdBu7)
        end
  end.

End ColorScale.

(** The colours of the cells of a render, row by row: [colorScale] is called
    once for every cell, and every call starts from the palette the call
    before it left. *)
Fixpoint renderColours (scale : list string -> jsnum -> option string * list string)
    (palette : list string) (cells : list jsnum) : list (option string) * list string :=
  match cells with
  | [] => ([], palette)
  | value :: rest =>
      let r := scale palette value in
      let rs := renderColours scale r.2 rest in
      (r.1 :: rs.1, rs.2)
  end.

(** The arguments of those calls: [gene.values.map(...)] inside
    [data.genes.map(...)]. *)
Definition cellValues (data : dataset) : list jsnum :=
  flat_map (fun g => map (fun v => match v with Some n => JNumber n | None => JNull end)
                       (values g)) (genes data).

(** * The vocabulary of the statements

    Predicates the properties are stated with, and the tables and datasets of
    the examples. *)

(** The result of comparing [x] with [z] through [y], when neither step goes
    down. *)
Definition chain (c1 c2 : comparison) : comparison :=
  match c1, c2 with Eq, Eq => Eq | _, _ => Lt end.

(** Every character of [s] satisfies [p]. *)
Fixpoint allChars (p : ascii -> bool) (s : string) : bool :=
  match s with
  | EmptyString => true
  | String c r => p c && allChars p r
  end.

(** A header shaped "Log2FC (X)": the marker in any capitalisation, white
    space, and the name [X] between parentheses.  The name is not empty and
    stays on one line. *)
Definition foldChangeShaped (h X : string) : Prop :=
  exists marker ws,
    h = (marker ++ ws ++ "(" ++ X ++ ")")%string
    /\ toLowerCase marker = "log2fc"
    /\ allChars isWhiteSpace ws = true
    /\ X <> ""
    /\ allChars (fun c => negb (isLineTerminator c)) X = true.

(** The table and the dataset of the example scenario. *)
Definition exampleRows : list Row :=
  [ [("Gene ID", CStr "A"); ("Log2FC (Ctrl vs KD)", CNum 1.2%float);
     ("P value (Ctrl vs KD)", CNum 0.03%float);
     ("All Gene Ontology Category", CStr "Lipid")];
    [("Gene ID", CStr "B"); ("Log2FC (Ctrl vs KD)", CNum (-0.5)%float);
     ("P value (Ctrl vs KD)", CNum 0.2%float);
     ("All Gene Ontology Category", CStr "Lipid")] ].

Definition exampleData : dataset :=
  mkData
    [mkGene (CStr "B") (CStr "Lipid") [Some (-0.5)%float] [Some 0.2%float];
     mkGene (CStr "A") (CStr "Lipid") [Some 1.2%float] [Some 0.03%float]]
    ["Ctrl vs KD"] ["Log2FC (Ctrl vs KD)"] ["P value (Ctrl vs KD)"]
    [mkGroup (CStr "Lipid") 0 1 2]
    [CStr "Lipid"].

(** A table whose second row has an empty p-value cell. *)
Definition blankPValueRows : list Row :=
  [ [("Gene ID", CStr "X"); ("Log2FC (x)", CNum 1%float); ("P value (x)", CNum 0.5%float)];
    [("Gene ID", CStr "Y"); ("Log2FC (x)", CNum 2%float)] ].

(** [!geneId]: the row is skipped. *)
Definition rowSkipped (row : Row) : bool := jsNot (geneIdOf row).

(** The pipeline throws an error of the kind [DataError]. *)
Definition failsWithDataError (r : pipelineError + dataset) : Prop :=
  exists e, r = inl e /\ kindOf e = DataError.

(** The groups tile the index range from [start] up to [n], in order: each
    starts where the previous one ended, is not empty, and counts its indices. *)
Fixpoint partitionFrom (start : Z) (gs : list categoryGroup) (n : Z) : Prop :=
  match gs with
  | [] => start = n
  | g :: r =>
      startIndex g = start /\ start <= endIndex g
      /\ count g = endIndex g - start + 1
      /\ partitionFrom (endIndex g + 1) r n
  end.

(** The sum of the [count] fields. *)
Definition totalCount (gs : list categoryGroup) : Z :=
  foldr (fun g s => count g + s) 0 gs.

(** The group the scan closes at [index], if one is open. *)
Definition closeGroup (current : option cell) (start index : Z) : list categoryGroup :=
  match current with
  | Some c => [mkGroup c start (index - 1) (index - start)]
  | None => []
  end.

(** The groups a scan in state [(current, start)] at [index] still pushes over
    the genes [l], the last one included. *)
Fixpoint groupsFrom (current : option cell) (start index : Z) (l : list gene)
    : list categoryGroup :=
  match l with
  | [] => closeGroup current start index
  | g :: l' =>
      if differsFrom (category g) current
      then closeGroup current start index ++ groupsFrom (Some (category g)) index (index + 1) l'
      else groupsFrom current start (index + 1) l'
  end.

(** The elements of a [Set] are pairwise different under [SameValueZero]. *)
Fixpoint distinctCells (l : list cell) : Prop :=
  match l with
  | [] => True
  | a :: r => Forall (fun b => sameValueZero b a = false) r /\ distinctCells r
  end.

(** The categories of a gene list are kept apart by their property keys: two
    genes whose categories have the same key have strictly equal categories.
    In particular no category is NaN.  This holds whenever all the categories
    are strings. *)
Definition keysSeparate (geneData : list gene) : Prop :=
  forall a b, In a geneData -> In b geneData ->
    propertyKey (category a) = propertyKey (category b) ->
    strictEq (category a) (category b) = true.

(** A table whose categories collide as property keys: [groupedByCategory] is
    a plain object, and a category that is the number 5 and a category that is
    the string "5" are two elements of [categories] and one property of the
    object.  [geneA], [geneB] and [geneC] are the genes validated from its
    rows. *)
Definition collidingRows : list Row :=
  [ [("Gene ID", CStr "A"); ("Log2FC (x)", CNum 2%float); ("Category", CNum 5%float)];
    [("Gene ID", CStr "B"); ("Log2FC (x)", CNum 1.5%float); ("Category", CStr "5")];
    [("Gene ID", CStr "C"); ("Log2FC (x)", CNum 1%float); ("Category", CStr "5")] ].

Definition geneA : gene := mkGene (CStr "A") (CNum 5%float) [Some 2%float] [].
Definition geneB : gene := mkGene (CStr "B") (CStr "5") [Some 1.5%float] [].
Definition geneC : gene := mkGene (CStr "C") (CStr "5") [Some 1%float] [].

(** The identifier of a row is missing, blank or made of white space. *)
Definition identifierBlank (row : Row) : Prop :=
  match jsOr (jsOr (get row "Gene ID") (get row "GeneID")) (get row "gene_id") with
  | None => True
  | Some (CStr s) => allChars isWhiteSpace s = true
  | Some (CNum _) => False
  end.

(** The category cells of the table are strings. *)
Definition stringCategories (rawData : list Row) : Prop :=
  forall row v, In row rawData ->
    categoryCell (categoryColOf (headersOf rawData)) row = Some v -> exists s, v = CStr s.

(** Whatever the keys, the output holds genes of the input only. *)
Definition storesOnly (geneData : list gene) (m : gmap string (list gene)) : Prop :=
  forall k l g, m !! k = Some l -> In g l -> In g geneData.

(** The dataset read back from the exported example. *)
Definition reimportedExample : dataset :=
  mkData
    [mkGene (CStr "B") (CStr "Lipid") [Some (-0.5)%float] [];
     mkGene (CStr "A") (CStr "Lipid") [Some 1.2%float] []]
    ["Ctrl vs KD"] ["Log2FC (Ctrl vs KD)"] []
    [mkGroup (CStr "Lipid") 0 1 2]
    [CStr "Lipid"].

(** The closed examples need an engine.  [integerToString] renders the
    integers of magnitude below 2^53 as [Number::toString] does, in decimal; the
    examples apply it to such integers only, and none of them parses a string. *)
Definition integerToString (n : float) : string :=
  match Prim2SF n with
  | S754_zero _ => "0"
  | S754_finite s m e =>
      let v := if (0 <=? e) then Z.pos m * 2 ^ e else Z.pos m / 2 ^ (- e) in
      pretty (if s then - v else v)
  | S754_infinity s => if s then "-Infinity" else "Infinity"
  | S754_nan => "NaN"
  end.

(** [parseFloat] on strings for the closed examples, none of which holds a
    numeric cell that is a string. *)
Definition noStringCell (_ : string) : float := PrimFloat.nan.

(** Whether [exportSelection] writes the gene [g]: its identifier is that of
    the gene in the row of a selected cell. *)
Definition selectedById (data : dataset) (selectedCells : list cellRef) (g : gene) : bool :=
  existsb (fun c => match genes data !! row c with
                    | Some g' => sameValueZero (id g) (id g')
                    | None => false
                    end) selectedCells.

(** A measure for the closed examples: seven pixels a character, whatever the
    font. *)
Fixpoint sevenPerChar (text font : string) : float :=
  match text with
  | EmptyString => PrimFloat.zero
  | String _ r => PrimFloat.add 7%float (sevenPerChar r font)
  end.

(** The name ends with [ext], capitals counting as their small letters. *)
Definition endsWithIgnoringCase (name ext : string) : Prop :=
  exists stem e, name = (stem ++ e)%string /\ toLowerCase e = ext.

(** The characters of a string. *)
Fixpoint charsOf (s : string) : list ascii :=
  match s with
  | EmptyString => []
  | String c r => c :: charsOf r
  end.

(** The groups of genes that come in blocks, one block of [n] genes for every
    [(c, n)], the first one starting at [start]. *)
Fixpoint groupsOfBlocks (start : Z) (blocks : list (cell * nat)) : list categoryGroup :=
  match blocks with
  | [] => []
  | (c, n) :: r =>
      mkGroup c start (start + Z.of_nat n - 1) (Z.of_nat n)
        :: groupsOfBlocks (start + Z.of_nat n) r
  end.

(** [blk] gives for each of the different string categories [cs] a block of
    genes of that category that is not empty. *)
Definition blocked (blk : cell -> list gene) (cs : list cell) : Prop :=
  List.NoDup cs
  /\ forall c, In c cs ->
       (exists s, c = CStr s) /\ blk c <> [] /\ forall g, In g (blk c) -> category g = c.

(** A header shaped "P value (X)": the marker in any capitalisation, white
    space, and the name [X] between parentheses.  The name is not empty and
    stays on one line. *)
Definition pValueShaped (h X : string) : Prop :=
  exists marker ws,
    h = (marker ++ ws ++ "(" ++ X ++ ")")%string
    /\ toLowerCase marker = "p value"
    /\ allChars isWhiteSpace ws = true
    /\ X <> ""
    /\ allChars (fun c => negb (isLineTerminator c)) X = true.

(** The characters of the two markers. *)
Definition markerChars : list ascii :=
  ["L"; "o"; "g"; "2"; "F"; "C"; "P"; " "; "v"; "a"; "l"; "u"; "e"]%char.

(** The shape of a fold-change header as the specification words it: the
    marker in any capitalisation, optional white space, and a name between
    parentheses, with no condition on the name. *)
Definition shapedAsSpecified (h X : string) : Prop :=
  exists marker ws,
    h = (marker ++ ws ++ "(" ++ X ++ ")")%string
    /\ toLowerCase marker = "log2fc"
    /\ allChars isWhiteSpace ws = true.

(** A name broken over two lines, and the header that holds it. *)
Definition brokenName : string := ("Ctrl vs" ++ String "010"%char "KD")%string.
Definition brokenHeader : string := ("Log2FC (" ++ brokenName ++ ")")%string.

(** A table with two comparison columns and one p-value column. *)
Definition twoComparisonRows : list Row :=
  [ [("Gene ID", CStr "G"); ("Log2FC (a)", CNum 1%float); ("Log2FC (b)", CNum 2%float);
     ("P value (a)", CNum 0.01%float)] ].

(** The closed examples of the colour scale need d3.  [rdBu7] is the array
    [d3.schemeRdBu[7]] as d3-scale-chromatic lists it, from red to blue.
    [d3QuantileBin] is the quantile scale as d3-scale documents it: the domain
    is the numbers among the values, in ascending order; the breakpoints are
    its quantiles k/n for k from 1 to n-1, by linear interpolation between
    neighbours; a number falls in the bin counted by the breakpoints that are
    not above it.  The examples are in quantile mode: they take no logarithm
    and no ramp colour. *)
Definition rdBu7 : list string :=
  ["#b2182b"; "#ef8a62"; "#fddbc7"; "#f7f7f7"; "#d1e5f0"; "#67a9cf"; "#2166ac"].

Fixpoint floatOfNat (k : nat) : float :=
  match k with
  | O => PrimFloat.zero
  | S j => PrimFloat.add (floatOfNat j) 1%float
  end.

Definition numbersOf (domain : list (option float)) : list float :=
  omap (fun d => match d with
                 | Some x => if PrimFloat.is_nan x then None else Some x
                 | None => None
                 end) domain.

Definition ascending (a b : float) : float :=
  if PrimFloat.ltb a b then (-1)%float else if PrimFloat.ltb b a then 1%float
  else PrimFloat.zero.

(** The largest [k] up to [bound] with [k <= i], 0 when there is none. *)
Fixpoint floorUpTo (bound : nat) (i : float) : nat :=
  match bound with
  | O => O
  | S k => if PrimFloat.leb (floatOfNat (S k)) i then S k else floorUpTo k i
  end.

Definition quantileSorted (sorted : list float) (p : float) : float :=
  let n := length sorted in
  if (n =? 0)%nat then PrimFloat.nan
  else if PrimFloat.leb p PrimFloat.zero || (n <? 2)%nat then numberAt sorted 0
  else if PrimFloat.leb 1%float p then numberAt sorted (n - 1)
  else
    let i := PrimFloat.mul (floatOfNat (n - 1)) p in
    let i0 := floorUpTo (n - 1) i in
    PrimFloat.add (numberAt sorted i0)
      (PrimFloat.mul (PrimFloat.sub (numberAt sorted (S i0)) (numberAt sorted i0))
         (PrimFloat.sub i (floatOfNat i0))).

Definition d3QuantileBin (domain : list (option float)) (n : nat) (x : float) : option nat :=
  if PrimFloat.is_nan x then None
  else
    let sorted := arraySort ascending (numbersOf domain) in
    let breakpoints :=
      map (fun k => quantileSorted sorted (PrimFloat.div (floatOfNat k) (floatOfNat n)))
        (seq 1 (Nat.max 1 n - 1)) in
    Some (length (List.filter (fun t => PrimFloat.leb t x) breakpoints)).

Definition noLog2 (_ : float) : float := PrimFloat.nan.
Definition noRamp (_ : float) : string := EmptyString.

(** [colorScale] with these collaborators. *)
Definition exampleColorScale : string -> option dataset -> list string -> jsnum
    -> option string * list string :=
  colorScale noLog2 noRamp noRamp d3QuantileBin.

(** * Properties *)

(** ** The order of binary64 numbers

    The comparisons of primitive floats are specified through [SFcompare] on
    their decoded form; the facts below are the ones the pipeline relies on. *)

Ltac compare_cases :=
  repeat (simpl in *; match goal with
  | H : context [Pos.compare_cont Eq ?a ?b] |- _ =>
      change (Pos.compare_cont Eq a b) with (Pos.compare a b) in *
  | |- context [Pos.compare_cont Eq ?a ?b] =>
      change (Pos.compare_cont Eq a b) with (Pos.compare a b) in *
  | H : context [Z.compare ?a ?b] |- _ => destruct (Z.compare_spec a b); try subst
  | |- context [Z.compare ?a ?b] => destruct (Z.compare_spec a b); try subst
  | H : context [Pos.compare ?a ?b] |- _ => destruct (Pos.compare_spec a b); try subst
  | |- context [Pos.compare ?a ?b] => destruct (Pos.compare_spec a b); try subst
  end).

Lemma SFcompare_swap (x y : spec_float) :
  SFcompare y x = option_map CompOpp (SFcompare x y).
Proof.
  destruct x as [s1|s1| |s1 m1 e1], y as [s2|s2| |s2 m2 e2]; simpl;
    try destruct s1; try destruct s2; try reflexivity;
    compare_cases; try reflexivity; try lia.
Qed.

Lemma SFcompare_trans (x y z : spec_float) (c1 c2 : comparison) :
  SFcompare x y = Some c1 -> SFcompare y z = Some c2 -> c1 <> Gt -> c2 <> Gt ->
  SFcompare x z = Some (chain c1 c2).
Proof.
  destruct x as [s1|s1| |s1 m1 e1], y as [s2|s2| |s2 m2 e2], z as [s3|s3| |s3 m3 e3];
    simpl; try discriminate;
    try destruct s1; try destruct s2; try destruct s3; simpl;
    intros H1 H2 N1 N2; injection H1 as <-; injection H2 as <-;
    try reflexivity; try congruence;
    compare_cases; simpl in *; try reflexivity; try congruence; try lia.
Qed.

(** What the three comparisons say about [SFcompare]. *)
Lemma ltb_compare (x y : float) :
  PrimFloat.ltb x y = true <-> SFcompare (Prim2SF x) (Prim2SF y) = Some Lt.
Proof.
  rewrite FloatAxioms.ltb_spec. unfold SFltb.
  destruct (SFcompare (Prim2SF x) (Prim2SF y)) as [[]|]; split; congruence.
Qed.

Lemma eqb_compare (x y : float) :
  PrimFloat.eqb x y = true <-> SFcompare (Prim2SF x) (Prim2SF y) = Some Eq.
Proof.
  rewrite FloatAxioms.eqb_spec. unfold SFeqb.
  destruct (SFcompare (Prim2SF x) (Prim2SF y)) as [[]|]; split; congruence.
Qed.

Lemma leb_compare (x y : float) :
  PrimFloat.leb x y = true <->
  exists c, SFcompare (Prim2SF x) (Prim2SF y) = Some c /\ c <> Gt.
Proof.
  rewrite FloatAxioms.leb_spec. unfold SFleb.
  destruct (SFcompare (Prim2SF x) (Prim2SF y)) as [[]|]; split;
    try (intros _; eexists; split; [reflexivity|congruence]);
    try reflexivity; try discriminate;
    intros (c & Hc & Hn); congruence.
Qed.

Lemma ltb_leb (x y : float) : PrimFloat.ltb x y = true -> PrimFloat.leb x y = true.
Proof.
  rewrite ltb_compare, leb_compare. intros H. exists Lt. split; [exact H|congruence].
Qed.

Lemma leb_not_ltb (x y : float) : PrimFloat.leb x y = true -> PrimFloat.ltb y x = false.
Proof.
  rewrite leb_compare. intros (c & Hc & Hn).
  apply not_true_is_false. rewrite ltb_compare, SFcompare_swap, Hc.
  destruct c; simpl; congruence.
Qed.

Lemma ltb_not_leb (x y : float) : PrimFloat.ltb x y = true -> PrimFloat.leb y x = false.
Proof.
  rewrite ltb_compare. intros H.
  apply not_true_is_false. rewrite leb_compare, SFcompare_swap, H.
  intros (c & Hc & Hn). simpl in Hc. congruence.
Qed.

Lemma ltb_trans (x y z : float) :
  PrimFloat.ltb x y = true -> PrimFloat.ltb y z = true -> PrimFloat.ltb x z = true.
Proof.
  rewrite !ltb_compare. intros H1 H2.
  rewrite (SFcompare_trans _ _ _ _ _ H1 H2); [reflexivity|congruence|congruence].
Qed.

Lemma ltb_leb_trans (x y z : float) :
  PrimFloat.ltb x y = true -> PrimFloat.leb y z = true -> PrimFloat.ltb x z = true.
Proof.
  rewrite !ltb_compare, leb_compare. intros H1 (c & H2 & Hn).
  rewrite (SFcompare_trans _ _ _ _ _ H1 H2); [reflexivity|congruence|exact Hn].
Qed.

Lemma eqb_sym (x y : float) : PrimFloat.eqb x y = PrimFloat.eqb y x.
Proof.
  rewrite !FloatAxioms.eqb_spec. unfold SFeqb. rewrite (SFcompare_swap (Prim2SF x) (Prim2SF y)).
  destruct (SFcompare (Prim2SF x) (Prim2SF y)) as [[]|]; reflexivity.
Qed.

Lemma eqb_trans (x y z : float) :
  PrimFloat.eqb x y = true -> PrimFloat.eqb y z = true -> PrimFloat.eqb x z = true.
Proof.
  rewrite !eqb_compare. intros H1 H2.
  rewrite (SFcompare_trans _ _ _ _ _ H1 H2); [reflexivity|congruence|congruence].
Qed.

(** Strict equality is symmetric and transitive. *)
Lemma strictEq_sym (a b : cell) : strictEq a b = strictEq b a.
Proof.
  destruct a, b; simpl; try reflexivity.
  - apply eqb_sym.
  - apply String.eqb_sym.
Qed.

Lemma strictEq_trans (a b c : cell) :
  strictEq a b = true -> strictEq b c = true -> strictEq a c = true.
Proof.
  destruct a, b, c; simpl; try discriminate.
  - apply eqb_trans.
  - rewrite !String.eqb_eq. congruence.
Qed.

(** ** The significance marker *)

(** C5, as the code has it.  For a p-value that is a number: at 0.1 and above
    no circle is drawn (the radius is 0); from 0.05 (included) to 0.1 (excluded) a grey circle of
    radius 2 is drawn; from 0.01 (included) to 0.05 (excluded) a black circle of
    radius 3; below 0.01 a black circle of radius 5, the largest. *)
Theorem marker_tiers (p : float) :
  (jsGe p 0.1%float = true ->
     circleDrawn (JNumber p) = false /\ circleRadius (JNumber p) = 0) /\
  (jsGe p 0.05%float = true -> jsLt p 0.1%float = true ->
     circleDrawn (JNumber p) = true /\ circleRadius (JNumber p) = 2
     /\ circleFill (JNumber p) = "#888") /\
  (jsGe p 0.01%float = true -> jsLt p 0.05%float = true ->
     circleDrawn (JNumber p) = true /\ circleRadius (JNumber p) = 3
     /\ circleFill (JNumber p) = "black") /\
  (jsLt p 0.01%float = true ->
     circleDrawn (JNumber p) = true /\ circleRadius (JNumber p) = 5
     /\ circleFill (JNumber p) = "black").
Proof.
  unfold circleDrawn, circleRadius, circleFill, getSizeForPValue, isSignificant,
    isMarginal, jsGe, jsLt; simpl.
  split; [|split; [|split]].
  - intros Hge.
    assert (H5 : PrimFloat.ltb 0.05%float p = true)
      by (apply (ltb_leb_trans _ 0.1%float); [reflexivity|exact Hge]).
    rewrite (leb_not_ltb _ _ (ltb_leb _ _ H5)), (leb_not_ltb _ _ Hge), andb_false_r.
    split; reflexivity.
  - intros Hge Hlt. rewrite (leb_not_ltb _ _ Hge), Hge, Hlt. repeat split.
  - intros Hge Hlt.
    rewrite Hlt, (ltb_not_leb _ _ Hlt), (leb_not_ltb _ _ Hge). repeat split.
  - intros Hlt. assert (H5 := ltb_trans p 0.01%float 0.05%float Hlt eq_refl).
    rewrite H5, (ltb_not_leb _ _ H5), Hlt. repeat split.
Qed.

(** On its own [getSizeForPValue] answers 0 at 0.05; the renderer asks it only
    below 0.05. *)
Lemma getSizeForPValue_at_boundary : getSizeForPValue (JNumber 0.05%float) = 0.
Proof. reflexivity. Qed.

(** A p-value that is [undefined] or NaN has no circle. *)
Lemma no_circle_without_number :
  circleDrawn JUndefined = false /\ circleDrawn (JNumber PrimFloat.nan) = false.
Proof. split; reflexivity. Qed.

(** An empty p-value cell becomes [null] in the gene, and the renderer gives
    it the circle of the most significant tier. *)
Lemma blank_pValue_gets_largest_circle :
  exists data g,
    processExcelFile blankPValueRows = inr data
    /\ genes data !! 1%nat = Some g /\ id g = CStr "Y"
    /\ pValueAt g 0 = JNull
    /\ circleDrawn (pValueAt g 0) = true /\ circleRadius (pValueAt g 0) = 5.
Proof.
  eexists _, (mkGene (CStr "Y") (CStr "Uncategorized") [Some 2%float] [None]).
  split; [vm_compute; reflexivity|]. repeat split.
Qed.

(** ** Schema detection *)

Lemma lengthZ_zero {A : Type} (l : list A) :
  (Z.of_nat (length l) =? 0) = match l with [] => true | _ :: _ => false end.
Proof. destruct l; reflexivity. Qed.

Lemma filter_nil_iff {A : Type} (f : A -> bool) (l : list A) :
  List.filter f l = [] <-> (forall x, In x l -> f x = false).
Proof.
  induction l as [|a l IH]; simpl.
  - split; [intros _ x []|reflexivity].
  - destruct (f a) eqn:Ha.
    + split; [discriminate|]. intros H. rewrite (H a) in Ha; [discriminate|now left].
    + rewrite IH. split.
      * intros H x [<-|Hx]; [exact Ha|now apply H].
      * intros H x Hx. apply H. now right.
Qed.

(** C2.  When the table has rows and none of its headers matches the
    fold-change pattern, [processExcelFile] throws a schema error: no dataset
    is produced. *)
Theorem no_comparison_column_is_schema_error (rawData : list Row) :
  rawData <> [] ->
  (forall h, In h (headersOf rawData) -> test comparisonPattern h = false) ->
  exists e, processExcelFile rawData = inl e /\ kindOf e = SchemaError.
Proof.
  intros Hrows Hnone. unfold processExcelFile.
  rewrite (lengthZ_zero rawData).
  destruct rawData as [|r rest]; [congruence|].
  rewrite lengthZ_zero.
  destruct (headersOf (r :: rest)) as [|h0 hs] eqn:Hh.
  - exists NoHeadersFound. split; reflexivity.
  - rewrite lengthZ_zero.
    assert (Hc : comparisonsOf (h0 :: hs) = []) by (apply filter_nil_iff; exact Hnone).
    rewrite Hc. exists NoComparisonColumns. split; reflexivity.
Qed.

(** With at least one header, the error is the one whose message names the
    expected header pattern. *)
Lemma no_comparison_column_error (rawData : list Row) :
  headersOf rawData <> [] ->
  (forall h, In h (headersOf rawData) -> test comparisonPattern h = false) ->
  processExcelFile rawData = inl NoComparisonColumns.
Proof.
  intros Hh Hnone. unfold processExcelFile.
  rewrite (lengthZ_zero rawData).
  destruct rawData as [|r rest]; [now elim Hh|].
  rewrite lengthZ_zero.
  destruct (headersOf (r :: rest)) as [|h0 hs]; [congruence|].
  rewrite lengthZ_zero.
  assert (Hc : comparisonsOf (h0 :: hs) = []) by (apply filter_nil_iff; exact Hnone).
  now rewrite Hc.
Qed.

Lemma lowerChar_canonicalize (c a : ascii) :
  In a ["l"; "o"; "g"; "2"; "f"; "c"]%char -> lowerChar c = a ->
  canonicalize c = canonicalize a.
Proof.
  intros Ha Hc. simpl in Ha.
  destruct Ha as [<-|[<-|[<-|[<-|[<-|[<-|[]]]]]]];
    destruct c as [[] [] [] [] [] [] [] []]; vm_compute in Hc; vm_compute;
    first [reflexivity | discriminate Hc].
Qed.

Lemma stripLiteral_cons (a c : ascii) (lit s : string) :
  canonicalize c = canonicalize a ->
  stripLiteral (String a lit) (String c s) = stripLiteral lit s.
Proof. intros H. cbn [stripLiteral]. now rewrite H, Ascii.eqb_refl. Qed.

Lemma stripLiteral_marker (marker rest : string) :
  toLowerCase marker = "log2fc" ->
  stripLiteral "Log2FC" (marker ++ rest) = Some rest.
Proof.
  intros H.
  destruct marker as [|c1 [|c2 [|c3 [|c4 [|c5 [|c6 [|c7 m]]]]]]]; try discriminate H.
  simpl in H. injection H as H1 H2 H3 H4 H5 H6.
  change (String c1 (String c2 (String c3 (String c4 (String c5 (String c6 "")))))
            ++ rest)%string
    with (String c1 (String c2 (String c3 (String c4 (String c5 (String c6 rest)))))).
  rewrite !stripLiteral_cons; [reflexivity|..];
    match goal with
    | |- canonicalize ?c = canonicalize ?a =>
        apply (lowerChar_canonicalize c (lowerChar a)); [simpl; auto 10|assumption]
    end.
Qed.

Lemma trimStart_whitespace (ws rest : string) :
  allChars isWhiteSpace ws = true ->
  trimStart (ws ++ String "(" rest) = String "(" rest.
Proof.
  induction ws as [|c ws IH]; simpl; [reflexivity|].
  intros H. apply andb_true_iff in H as [Hc Hws]. rewrite Hc. now apply IH.
Qed.

Lemma captureToEnd_step (c d e : ascii) (r : string) :
  captureToEnd (String c (String d (String e r))) =
  if isLineTerminator c then None
  else match captureToEnd (String d (String e r)) with
       | Some x => Some (String c x)
       | None => None
       end.
Proof. reflexivity. Qed.

Lemma captureToEnd_name (X : string) :
  X <> "" -> allChars (fun c => negb (isLineTerminator c)) X = true ->
  captureToEnd (X ++ ")") = Some X.
Proof.
  induction X as [|c X IH]; [congruence|].
  intros _ H. simpl in H. apply andb_true_iff in H as [Hc HX].
  apply negb_true_iff in Hc.
  destruct X as [|c' X'].
  - simpl. now rewrite Hc.
  - assert (IH' : captureToEnd (String c' X' ++ ")") = Some (String c' X'))
      by (apply IH; [discriminate|exact HX]).
    assert (E : exists e r, (String c' X' ++ ")")%string = String c' (String e r))
      by (destruct X'; simpl; eauto).
    destruct E as (e & r & E).
    change (String c (String c' X') ++ ")")%string
      with (String c (String c' X' ++ ")")).
    rewrite E in *. now rewrite captureToEnd_step, IH', Hc.
Qed.

Lemma comparisonPattern_shaped (h X : string) :
  foldChangeShaped h X -> comparisonPattern h = Some X.
Proof.
  intros (marker & ws & -> & Hm & Hws & HX & Hline).
  unfold comparisonPattern, matchMarker.
  rewrite (stripLiteral_marker _ _ Hm).
  change (ws ++ "(" ++ X ++ ")")%string with (ws ++ String "(" (X ++ ")"))%string.
  rewrite (trimStart_whitespace _ _ Hws).
  now apply captureToEnd_name.
Qed.

Lemma filter_sublist {A : Type} (f : A -> bool) (l : list A) :
  sublist (List.filter f l) l.
Proof.
  induction l as [|a l IH]; simpl; [constructor|].
  destruct (f a); now constructor.
Qed.

(** C8.  A header shaped "Log2FC (X)", with a name [X] that is not empty and
    stays on one line, is a comparison column, its display name is [X] trimmed,
    and the comparison columns are a subsequence of the headers: they keep the
    order of the header sequence. *)
Theorem fold_change_headers_detected (headers : list string) (h X : string) :
  In h headers -> foldChangeShaped h X ->
  (exists i : nat, comparisonsOf headers !! i = Some h
        /\ map shortName (comparisonsOf headers) !! i = Some (trim X))
  /\ sublist (comparisonsOf headers) headers.
Proof.
  intros Hin Hshape. pose proof (comparisonPattern_shaped _ _ Hshape) as Hpat.
  split; [|apply filter_sublist].
  assert (Hc : In h (comparisonsOf headers)).
  { apply filter_In. split; [exact Hin|]. unfold test. now rewrite Hpat. }
  apply list_elem_of_In, list_elem_of_lookup in Hc as [i Hi].
  exists i. split; [exact Hi|].
  rewrite list_lookup_fmap, Hi. simpl. unfold shortName. now rewrite Hpat.
Qed.

(** ** The example scenario *)

(** C3.  The two rows of the example give a dataset of two genes, B before A,
    and the single category group of "Lipid" from index 0 to index 1, of
    count 2. *)
Theorem example_scenario : processExcelFile exampleRows = inr exampleData.
Proof. vm_compute. reflexivity. Qed.

(** ** Row validation *)

Lemma geneOfRow_None (comps pcols : list string) (ccol : option string) (row : Row) :
  geneOfRow comps pcols ccol row = None <-> rowSkipped row = true.
Proof.
  unfold geneOfRow, rowSkipped.
  destruct (geneIdOf row) as [c|]; simpl; [|tauto].
  destruct (truthy c); simpl; split; congruence.
Qed.

Lemma omap_nil_iff {A B : Type} (f : A -> option B) (l : list A) :
  omap f l = [] <-> Forall (fun x => f x = None) l.
Proof.
  induction l as [|a l IH]; simpl.
  - split; [constructor|reflexivity].
  - destruct (f a) eqn:Ha.
    + split; [discriminate|]. intros H. inversion H; congruence.
    + rewrite IH. split; [now constructor|]. intros H. now inversion H.
Qed.

Lemma geneDataOf_nil (comps pcols : list string) (ccol : option string) (rawData : list Row) :
  geneDataOf comps pcols ccol rawData = [] <-> Forall (fun r => rowSkipped r = true) rawData.
Proof.
  unfold geneDataOf. rewrite omap_nil_iff.
  apply Forall_proper; [|reflexivity]. intros r. apply geneOfRow_None.
Qed.

(** Once the schema is detected, the pipeline either throws
    [NoValidGeneData] or hands a dataset to [setData]. *)
Lemma processExcelFile_validated (rawData : list Row) :
  comparisonsOf (headersOf rawData) <> [] ->
  processExcelFile rawData =
  let headers := headersOf rawData in
  let comps := comparisonsOf headers in
  let geneData := geneDataOf comps (pValueColumnsOf headers) (categoryColOf headers) rawData in
  match geneData with
  | [] => inl NoValidGeneData
  | _ :: _ =>
      let sortedGeneData := sortedGeneDataOf geneData in
      inr (mkData sortedGeneData (map shortName comps) comps (pValueColumnsOf headers)
             (categoryGroupsOf sortedGeneData) (setOf (map category sortedGeneData)))
  end.
Proof.
  intros Hc. unfold processExcelFile.
  rewrite (lengthZ_zero rawData).
  destruct rawData as [|r rest]; [now elim Hc|].
  rewrite lengthZ_zero.
  destruct (headersOf (r :: rest)) as [|h0 hs]; [now elim Hc|].
  rewrite lengthZ_zero.
  destruct (comparisonsOf (h0 :: hs)) as [|c0 cs]; [now elim Hc|].
  cbv zeta. rewrite lengthZ_zero.
  destruct (geneDataOf _ _ _ _); reflexivity.
Qed.

(** C7.  Where the row validator is reached (the table is empty, or the schema
    detector found a comparison column), the batch fails with a data error
    exactly when the table has no row or every row is skipped for its missing
    identifier; in every other case a dataset is produced. *)
Theorem data_error_iff_no_gene (rawData : list Row) :
  rawData = [] \/ comparisonsOf (headersOf rawData) <> [] ->
  (failsWithDataError (processExcelFile rawData) <->
     rawData = [] \/ Forall (fun r => rowSkipped r = true) rawData)
  /\ (~ failsWithDataError (processExcelFile rawData) ->
      exists data, processExcelFile rawData = inr data).
Proof.
  intros [->|Hc].
  - assert (H : failsWithDataError (processExcelFile [])).
    { exists NoDataFound. split; reflexivity. }
    split; [split; [now left|intros _; exact H]|]. intros Hn. now elim Hn.
  - rewrite (processExcelFile_validated _ Hc). cbv zeta.
    pose proof (geneDataOf_nil (comparisonsOf (headersOf rawData))
                  (pValueColumnsOf (headersOf rawData))
                  (categoryColOf (headersOf rawData)) rawData) as Hnil.
    destruct (geneDataOf _ _ _ rawData) as [|g gs].
    + assert (H : failsWithDataError (inl NoValidGeneData)).
      { exists NoValidGeneData. split; reflexivity. }
      split; [split; [intros _; right; now apply Hnil|intros _; exact H]|].
      intros Hn. now elim Hn.
    + split; [|intros _; eexists; reflexivity].
      split.
      * intros (e & He & _). discriminate He.
      * intros [->|Hall]; [now elim Hc|]. apply Hnil in Hall. discriminate Hall.
Qed.

(** ** Category groups *)

Lemma scanFrom_groupsFrom (l : list gene) (index : Z) (st : scanState) :
  let st' := scanFrom l index st in
  groupsSoFar st'
    ++ closeGroup (currentCategory st') (scanStart st') (index + Z.of_nat (length l))
  = groupsSoFar st ++ groupsFrom (currentCategory st) (scanStart st) index l.
Proof.
  revert index st. induction l as [|g l IH]; intros index st; cbn [scanFrom groupsFrom length].
  - now rewrite Z.add_0_r.
  - cbv zeta in *.
    replace (index + Z.of_nat (S (length l))) with (index + 1 + Z.of_nat (length l)) by lia.
    rewrite IH. unfold scanStep.
    destruct (differsFrom (category g) (currentCategory st)); [|reflexivity].
    cbn [groupsSoFar currentCategory scanStart].
    destruct (currentCategory st); cbn [closeGroup]; [|reflexivity].
    now rewrite <- app_assoc.
Qed.

Lemma categoryGroupsOf_groupsFrom (l : list gene) :
  categoryGroupsOf l = groupsFrom None 0 0 l.
Proof.
  pose proof (scanFrom_groupsFrom l 0 (mkScan None 0 [])) as H.
  cbv zeta in H. cbn [groupsSoFar currentCategory scanStart] in H.
  rewrite Z.add_0_l, app_nil_l in H. rewrite <- H.
  unfold categoryGroupsOf, closeGroup.
  destruct (currentCategory _); [reflexivity|]. now rewrite app_nil_r.
Qed.

Lemma groupsFrom_partition (c : cell) (start index : Z) (l : list gene) :
  start < index ->
  partitionFrom start (groupsFrom (Some c) start index l) (index + Z.of_nat (length l))
  /\ totalCount (groupsFrom (Some c) start index l) = index + Z.of_nat (length l) - start.
Proof.
  revert c start index. induction l as [|g l IH]; intros c start index Hlt;
    cbn [groupsFrom length].
  - simpl. lia.
  - replace (index + Z.of_nat (S (length l))) with (index + 1 + Z.of_nat (length l)) by lia.
    destruct (differsFrom (category g) (Some c)).
    + destruct (IH (category g) index (index + 1)) as [Hp Ht]; [lia|].
      cbn [closeGroup app partitionFrom totalCount foldr startIndex endIndex count].
      replace (index - 1 + 1) with index by lia.
      unfold totalCount in Ht. rewrite Ht. repeat split; try lia. exact Hp.
    + apply IH. lia.
Qed.

(** Every group the scan still pushes starts at the open group's start or at
    an index not yet visited. *)
Lemma groupsFrom_starts (c : cell) (start index : Z) (l : list gene) (g : categoryGroup) :
  In g (groupsFrom (Some c) start index l) -> startIndex g = start \/ index <= startIndex g.
Proof.
  revert c start index. induction l as [|g0 l IH]; intros c start index; cbn [groupsFrom].
  - simpl. intros [<-|[]]. now left.
  - destruct (differsFrom (category g0) (Some c)).
    + cbn [closeGroup app]. intros [<-|Hin]; [now left|].
      apply IH in Hin. right. lia.
    + intros Hin. apply IH in Hin. lia.
Qed.

Lemma groupsFrom_first (c : cell) (start index : Z) (l : list gene) :
  exists g, In g (groupsFrom (Some c) start index l) /\ startIndex g = start.
Proof.
  revert index. induction l as [|g0 l IH]; intros index; cbn [groupsFrom].
  - eexists. split; [now left|reflexivity].
  - destruct (differsFrom (category g0) (Some c)).
    + eexists. split; [now left|reflexivity].
    + apply IH.
Qed.

(** A group starts at a gene exactly when its category differs from the
    category of the gene before it.  [prev] is the category of the gene before
    [index]; the open group has a category strictly equal to it. *)
Lemma groupsFrom_boundary (c : cell) (start index : Z) (l : list gene) (prev : cell) :
  start < index -> prev = c \/ strictEq prev c = true ->
  forall (k : nat) (a : cell) (b : gene),
    (prev :: map category l) !! k = Some a -> l !! k = Some b ->
    (exists g, In g (groupsFrom (Some c) start index l)
               /\ startIndex g = index + Z.of_nat k)
    <-> strictEq a (category b) = false.
Proof.
  revert c start index prev. induction l as [|g0 l IH]; intros c start index prev Hlt Hprev k a b Ha Hb.
  - destruct k; discriminate Hb.
  - cbn [groupsFrom]. destruct k as [|k].
    + simpl in Ha, Hb. injection Ha as <-. injection Hb as <-.
      rewrite Z.add_0_r. cbn [differsFrom].
      destruct (strictEq (category g0) c) eqn:Heq; cbn [negb].
      * split.
        -- intros (g & Hin & Hs). apply groupsFrom_starts in Hin. lia.
        -- intros Hne. exfalso.
           destruct Hprev as [->|Hp].
           ++ rewrite strictEq_sym in Hne. congruence.
           ++ rewrite strictEq_sym in Heq.
              rewrite (strictEq_trans _ _ _ Hp Heq) in Hne. discriminate.
      * split.
        -- intros _. apply not_true_is_false. intros Heq'.
           destruct Hprev as [->|Hp].
           ++ rewrite strictEq_sym in Heq'. congruence.
           ++ rewrite strictEq_sym in Heq'.
              rewrite (strictEq_trans _ _ _ Heq' Hp) in Heq. discriminate.
        -- intros _. destruct (groupsFrom_first (category g0) index (index + 1) l)
             as (g & Hin & Hs).
           exists g. split; [|exact Hs]. apply in_or_app. now right.
    + change ((prev :: map category (g0 :: l)) !! S k) with ((category g0 :: map category l) !! k) in Ha.
      change ((g0 :: l) !! S k) with (l !! k) in Hb.
      replace (index + Z.of_nat (S k)) with (index + 1 + Z.of_nat k) by lia.
      cbn [differsFrom].
      destruct (strictEq (category g0) c) eqn:Heq; cbn [negb].
      * apply (IH c start (index + 1) (category g0)); [lia|now right|exact Ha|exact Hb].
      * rewrite <- (IH (category g0) index (index + 1) (category g0) ltac:(lia)
                      (or_introl eq_refl) k a b Ha Hb).
        cbn [closeGroup app]. split.
        -- intros (g & [<-|Hin] & Hs); [simpl in Hs; lia|]. now exists g.
        -- intros (g & Hin & Hs). exists g. split; [now right|exact Hs].
Qed.

(** The three properties for the groups of any gene sequence. *)
Lemma categoryGroupsOf_partition (l : list gene) :
  partitionFrom 0 (categoryGroupsOf l) (Z.of_nat (length l))
  /\ totalCount (categoryGroupsOf l) = Z.of_nat (length l)
  /\ (forall (k : nat) (a b : gene),
        l !! k = Some a -> l !! S k = Some b ->
        (exists g, In g (categoryGroupsOf l) /\ startIndex g = Z.of_nat (S k))
        <-> strictEq (category a) (category b) = false).
Proof.
  rewrite categoryGroupsOf_groupsFrom.
  destruct l as [|g0 l].
  - simpl. repeat split; try reflexivity; intros; discriminate.
  - cbn [groupsFrom differsFrom closeGroup app length].
    destruct (groupsFrom_partition (category g0) 0 (0 + 1) l) as [Hp Ht]; [lia|].
    replace (Z.of_nat (S (length l))) with (0 + 1 + Z.of_nat (length l)) by lia.
    split; [exact Hp|]. split; [rewrite Ht; lia|].
    intros k a b Ha Hb.
    replace (Z.of_nat (S k)) with (0 + 1 + Z.of_nat k) by lia.
    apply (groupsFrom_boundary (category g0) 0 (0 + 1) l (category g0)); [lia|now left| |exact Hb].
    change (category g0 :: map category l) with (map category (g0 :: l)).
    now rewrite list_lookup_fmap, Ha.
Qed.

(** C1.  In every dataset the pipeline builds, the category groups tile the
    index range of the genes from 0, in ascending order and without gap or
    overlap; their counts add up to the number of genes; and a group starts at
    a gene exactly when its category differs from that of the gene before. *)
Theorem category_groups_partition (rawData : list Row) (data : dataset) :
  processExcelFile rawData = inr data ->
  partitionFrom 0 (categoryGroups data) (Z.of_nat (length (genes data)))
  /\ totalCount (categoryGroups data) = Z.of_nat (length (genes data))
  /\ (forall (k : nat) (a b : gene),
        genes data !! k = Some a -> genes data !! S k = Some b ->
        (exists g, In g (categoryGroups data) /\ startIndex g = Z.of_nat (S k))
        <-> strictEq (category a) (category b) = false).
Proof.
  unfold processExcelFile. intros H.
  repeat match type of H with
         | (if ?b then _ else _) = _ => destruct b; [discriminate H|]
         end.
  injection H as <-. cbn [genes categoryGroups].
  apply categoryGroupsOf_partition.
Qed.

(** ** Grouping and sorting *)

Lemma insertSorted_perm {A : Type} (cmp : A -> A -> float) (x : A) (l : list A) :
  Permutation (x :: l) (insertSorted cmp x l).
Proof.
  induction l as [|y l IH]; simpl; [reflexivity|].
  destruct (jsLt _ _); [|reflexivity].
  rewrite perm_swap. now apply perm_skip.
Qed.

(** Sorting permutes, whatever the comparison function answers. *)
Lemma arraySort_perm {A : Type} (cmp : A -> A -> float) (l : list A) :
  Permutation l (arraySort cmp l).
Proof.
  induction l as [|x l IH]; simpl; [reflexivity|].
  rewrite <- insertSorted_perm. now apply perm_skip.
Qed.

Lemma sameValueZero_sym (a b : cell) : sameValueZero a b = sameValueZero b a.
Proof.
  destruct a, b; simpl; try reflexivity.
  - now rewrite eqb_sym, andb_comm.
  - apply String.eqb_sym.
Qed.

Lemma strictEq_sameValueZero (a b : cell) : strictEq a b = true -> sameValueZero a b = true.
Proof. destruct a, b; simpl; try discriminate; [now intros ->|trivial]. Qed.

Lemma sameValueZero_refl (a : cell) : sameValueZero a a = true.
Proof.
  destruct a; simpl.
  - unfold PrimFloat.is_nan. now destruct (PrimFloat.eqb n n).
  - apply String.eqb_refl.
Qed.

(** On a cell that is strictly equal to itself (any cell but NaN), the two
    equalities agree. *)
Lemma sameValueZero_strictEq (a b : cell) :
  strictEq a a = true -> sameValueZero a b = true -> strictEq a b = true.
Proof.
  destruct a, b; simpl; try discriminate; [|trivial].
  unfold PrimFloat.is_nan. intros ->. simpl. now rewrite orb_false_r.
Qed.

Lemma eqb_refl_l (x y : float) : PrimFloat.eqb x y = true -> PrimFloat.eqb x x = true.
Proof. intros H. apply (eqb_trans x y x H). now rewrite eqb_sym. Qed.

Lemma eqb_refl_r (x y : float) : PrimFloat.eqb x y = true -> PrimFloat.eqb y y = true.
Proof. rewrite eqb_sym. apply eqb_refl_l. Qed.

Lemma sameValueZero_trans (a b c : cell) :
  sameValueZero a b = true -> sameValueZero b c = true -> sameValueZero a c = true.
Proof.
  destruct a as [x|s], b as [y|t], c as [z|u]; simpl; try discriminate.
  - unfold PrimFloat.is_nan. intros H1 H2.
    apply orb_true_iff in H1 as [H1|H1], H2 as [H2|H2].
    + now rewrite (eqb_trans _ _ _ H1 H2).
    + rewrite (eqb_refl_r _ _ H1) in H2. discriminate.
    + rewrite (eqb_refl_l _ _ H2) in H1. rewrite andb_false_r in H1. discriminate.
    + apply andb_true_iff in H1 as [H1 _], H2 as [_ H2].
      now rewrite H1, H2, orb_true_r.
  - rewrite !String.eqb_eq. congruence.
Qed.

Lemma distinctCells_snoc (acc : list cell) (c : cell) :
  distinctCells acc -> existsb (sameValueZero c) acc = false -> distinctCells (acc ++ [c]).
Proof.
  induction acc as [|a acc IH]; simpl; [intros; split; [constructor|exact I]|].
  intros [Hall Hd] He. apply orb_false_iff in He as [Ha He].
  split; [|now apply IH].
  apply Forall_app. split; [exact Hall|]. constructor; [exact Ha|constructor].
Qed.

Lemma fold_addToSet (l acc : list cell) :
  distinctCells acc ->
  distinctCells (fold_left addToSet l acc)
  /\ (forall c, In c (fold_left addToSet l acc) -> In c acc \/ In c l)
  /\ (forall x, In x acc \/ In x l ->
        exists c, In c (fold_left addToSet l acc) /\ sameValueZero x c = true).
Proof.
  revert acc. induction l as [|x l IH]; intros acc Hd; simpl.
  - split; [exact Hd|]. split; [now left|].
    intros y [Hy|[]]. exists y. split; [exact Hy|apply sameValueZero_refl].
  - unfold addToSet at 2 4 6. destruct (existsb (sameValueZero x) acc) eqn:He.
    + destruct (IH acc Hd) as (H1 & H2 & H3). split; [exact H1|]. split.
      * intros c Hc. destruct (H2 c Hc); auto.
      * intros y [Hy|[<-|Hy]]; [apply H3; now left| |apply H3; now right].
        apply existsb_exists in He as (c & Hc & Hs).
        destruct (H3 c (or_introl Hc)) as (c' & Hc' & Hs').
        exists c'. split; [exact Hc'|]. exact (sameValueZero_trans _ _ _ Hs Hs').
    + destruct (IH (acc ++ [x]) (distinctCells_snoc _ _ Hd He)) as (H1 & H2 & H3).
      split; [exact H1|]. split.
      * intros c Hc. destruct (H2 c Hc) as [Hin|Hin]; [|auto].
        apply in_app_or in Hin as [Hin|[<-|[]]]; auto.
      * intros y [Hy|[<-|Hy]]; apply H3; [left|left|right]; auto using in_or_app.
        apply in_or_app. right. now left.
Qed.

Lemma string_categories_keysSeparate (geneData : list gene) :
  (forall g, In g geneData -> exists s, category g = CStr s) -> keysSeparate geneData.
Proof.
  intros H a b Ha Hb. destruct (H a Ha) as [s ->], (H b Hb) as [t ->]. simpl.
  intros ->. apply String.eqb_refl.
Qed.

Lemma distinctCells_split (c1 c2 : list cell) (c c' : cell) :
  distinctCells (c1 ++ c :: c2) -> In c' (c1 ++ c2) -> sameValueZero c c' = false.
Proof.
  induction c1 as [|a c1 IH]; simpl.
  - intros [Hall _] Hin. rewrite sameValueZero_sym.
    rewrite List.Forall_forall in Hall. now apply Hall.
  - intros [Hall Hd] [<-|Hin]; [|now apply IH].
    rewrite List.Forall_forall in Hall. apply Hall. apply in_or_app. right. now left.
Qed.

Section Grouping.
Variable geneData : list gene.
Hypothesis Hkeys : keysSeparate geneData.

Let cats : list cell := setOf (map category geneData).

Lemma cats_spec :
  distinctCells cats
  /\ (forall c, In c cats -> exists g, In g geneData /\ category g = c)
  /\ (forall g, In g geneData -> exists c, In c cats /\ strictEq (category g) c = true).
Proof.
  destruct (fold_addToSet (map category geneData) [] I) as (H1 & H2 & H3).
  split; [exact H1|]. split.
  - intros c Hc. destruct (H2 c Hc) as [[]|Hin].
    apply in_map_iff in Hin as (g & <- & Hg). now exists g.
  - intros g Hg. destruct (H3 (category g)) as (c & Hc & Hs).
    { right. now apply in_map. }
    exists c. split; [exact Hc|].
    apply sameValueZero_strictEq; [now apply Hkeys|exact Hs].
Qed.

Lemma cats_keys_NoDup : forall cs, distinctCells cs -> (forall c, In c cs -> In c cats) ->
  NoDup (map propertyKey cs).
Proof.
  destruct cats_spec as (_ & Hin & _).
  induction cs as [|a cs IH]; simpl; intros Hd Hsub; [constructor|].
  destruct Hd as [Hall Hd]. constructor; [|apply IH; auto].
  rewrite list_elem_of_In. intros Hk. apply in_map_iff in Hk as (b & Hkey & Hb).
  destruct (Hin a) as (ga & Hga & <-); [auto|].
  destruct (Hin b) as (gb & Hgb & <-); [auto|].
  rewrite List.Forall_forall in Hall. specialize (Hall _ Hb).
  rewrite (strictEq_sameValueZero _ _ (Hkeys gb ga Hgb Hga Hkey)) in Hall.
  discriminate.
Qed.

Lemma genesInCategory_nonempty (c : cell) :
  In c cats -> (0 <? Z.of_nat (length (genesInCategory geneData c))) = true.
Proof.
  destruct cats_spec as (_ & Hin & _). intros Hc.
  destruct (Hin c Hc) as (g & Hg & <-).
  assert (Hf : In g (genesInCategory geneData (category g))).
  { apply filter_In. split; [exact Hg|]. now apply Hkeys. }
  destruct (genesInCategory geneData (category g)); [destruct Hf|reflexivity].
Qed.

(** The first loop: with keys that do not collide, every category finds its
    own genes under its key. *)
Lemma groupStep_fold_other (cs : list cell) (m : gmap string (list gene)) (k : string) :
  ~ In k (map propertyKey cs) ->
  fold_left (groupStep geneData) cs m !! k = m !! k.
Proof.
  revert m. induction cs as [|c cs IH]; intros m Hk; simpl; [reflexivity|].
  simpl in Hk. rewrite IH by tauto. unfold groupStep.
  destruct (0 <? _); [|reflexivity]. apply lookup_insert_ne. tauto.
Qed.

Lemma groupStep_fold_lookup (cs : list cell) (m : gmap string (list gene)) (c : cell) :
  NoDup (map propertyKey cs) -> (forall c', In c' cs -> In c' cats) -> In c cs ->
  fold_left (groupStep geneData) cs m !! propertyKey c = Some (genesInCategory geneData c).
Proof.
  revert m. induction cs as [|c0 cs IH]; intros m Hnd Hsub Hc; [destruct Hc|].
  simpl in *. apply NoDup_cons in Hnd as [Hnotin Hnd].
  destruct Hc as [->|Hc].
  - rewrite groupStep_fold_other by (now rewrite <- list_elem_of_In).
    unfold groupStep. rewrite genesInCategory_nonempty by auto.
    apply lookup_insert_eq.
  - apply IH; auto.
Qed.

(** The second loop appends the sorted group of every category, in order. *)
Lemma sortStep_fold (cs : list cell) (m : gmap string (list gene)) (out : list gene) :
  NoDup (map propertyKey cs) ->
  (forall c, In c cs -> m !! propertyKey c = Some (genesInCategory geneData c)) ->
  (fold_left sortStep cs (m, out)).2
  = out ++ concat (map (fun c => arraySort byFirstValue (genesInCategory geneData c)) cs).
Proof.
  revert m out. induction cs as [|c cs IH]; intros m out Hnd Hm; simpl.
  - now rewrite app_nil_r.
  - apply NoDup_cons in Hnd as [Hnotin Hnd].
    unfold sortStep at 2. cbn [fst snd]. rewrite (Hm c) by now left.
    rewrite IH; [now rewrite <- app_assoc|exact Hnd|].
    intros c' Hc'. rewrite lookup_insert_ne; [apply Hm; now right|].
    intros Heq. apply Hnotin. rewrite list_elem_of_In, Heq. now apply in_map.
Qed.

Lemma sortedGeneDataOf_concat :
  sortedGeneDataOf geneData
  = concat (map (fun c => arraySort byFirstValue (genesInCategory geneData c)) cats).
Proof.
  destruct cats_spec as (Hd & _ & _).
  pose proof (cats_keys_NoDup cats Hd (fun c H => H)) as Hnd.
  unfold sortedGeneDataOf. fold cats. rewrite sortStep_fold; [reflexivity|exact Hnd|].
  intros c Hc. unfold groupedByCategoryOf. now apply groupStep_fold_lookup.
Qed.

(** Every gene is strictly equal in category to exactly one element of
    [categories]. *)
Lemma one_category (g : gene) :
  In g geneData ->
  exists c1 c c2, cats = c1 ++ c :: c2 /\ strictEq (category g) c = true
    /\ forall c', In c' (c1 ++ c2) -> strictEq (category g) c' = false.
Proof.
  destruct cats_spec as (Hd & Hin & Hex). intros Hg.
  destruct (Hex g Hg) as (c & Hc & Hs).
  apply in_split in Hc as (c1 & c2 & Hsplit).
  exists c1, c, c2. split; [exact Hsplit|]. split; [exact Hs|].
  intros c' Hc'. rewrite Hsplit in Hd.
  pose proof (distinctCells_split _ _ _ _ Hd Hc') as Hne.
  apply not_true_is_false. intros Hs'.
  rewrite strictEq_sym in Hs.
  rewrite (strictEq_sameValueZero _ _ (strictEq_trans _ _ _ Hs Hs')) in Hne.
  discriminate.
Qed.

End Grouping.

(** Splitting a list into the classes of a list of representatives, when every
    element belongs to exactly one class. *)
Lemma classes_perm {A B : Type} (r : A -> B -> bool) (reps : list B) (l : list A) :
  (forall x, In x l -> exists c1 c c2, reps = c1 ++ c :: c2 /\ r x c = true
                        /\ forall c', In c' (c1 ++ c2) -> r x c' = false) ->
  Permutation l (concat (map (fun c => List.filter (fun x => r x c) l) reps)).
Proof.
  induction l as [|x l IH]; intros H.
  - clear H. simpl. induction reps as [|c reps IHr]; simpl; [reflexivity|exact IHr].
  - destruct (H x (or_introl eq_refl)) as (c1 & c & c2 & -> & Hc & Hother).
    specialize (IH (fun y Hy => H y (or_intror Hy))).
    rewrite map_app, concat_app in IH |- *. cbn [map concat] in IH |- *.
    cbn [List.filter]. rewrite Hc.
    assert (E : forall cs, (forall c', In c' cs -> r x c' = false) ->
              map (fun c0 => List.filter (fun y => r y c0) (x :: l)) cs
              = map (fun c0 => List.filter (fun y => r y c0) l) cs).
    { intros cs Hcs. apply map_ext_in. intros c' Hc'. cbn [List.filter].
      now rewrite (Hcs c' Hc'). }
    rewrite !E by (intros c' Hc'; apply Hother, in_or_app; auto).
    cbn [app]. rewrite <- Permutation_middle. now apply perm_skip.
Qed.

(** Where the property keys keep the categories apart, the grouper and sorter
    permutes its input. *)
Lemma sortedGeneDataOf_perm (geneData : list gene) :
  keysSeparate geneData -> Permutation geneData (sortedGeneDataOf geneData).
Proof.
  intros Hkeys. rewrite (sortedGeneDataOf_concat _ Hkeys).
  transitivity (concat (map (fun c => genesInCategory geneData c)
                          (setOf (map category geneData)))).
  - apply (classes_perm (fun g c => strictEq (category g) c)).
    intros g Hg. now apply one_category.
  - induction (setOf (map category geneData)) as [|c cs IH]; simpl; [reflexivity|].
    apply Permutation_app; [apply arraySort_perm|exact IH].
Qed.

Lemma collidingRows_validated :
  geneDataOf ["Log2FC (x)"] [] (Some "Category") collidingRows = [geneA; geneB; geneC].
Proof. vm_compute. reflexivity. Qed.

Lemma sortedGeneDataOf_collision :
  numberToString 5%float = "5" ->
  sortedGeneDataOf [geneA; geneB; geneC] = [geneC; geneB; geneC; geneB].
Proof.
  intros H. unfold sortedGeneDataOf, groupedByCategoryOf.
  set (cs := setOf _). vm_compute in cs. subst cs.
  cbn [fold_left]. unfold sortStep, groupStep, propertyKey.
  cbn [category geneA geneB geneC fst snd]. rewrite !H.
  vm_compute. reflexivity.
Qed.

(** C10 at the validated genes A (category 5), B and C (category "5"): the
    output holds C and B twice and A not at all; it is not a permutation of the
    input. *)
Theorem grouper_not_a_permutation :
  numberToString 5%float = "5" ->
  sortedGeneDataOf [geneA; geneB; geneC] = [geneC; geneB; geneC; geneB]
  /\ ~ Permutation [geneA; geneB; geneC] (sortedGeneDataOf [geneA; geneB; geneC]).
Proof.
  intros H. rewrite (sortedGeneDataOf_collision H). split; [reflexivity|].
  intros Hp. apply Permutation_length in Hp. discriminate Hp.
Qed.

(** C6 at the three rows of [collidingRows]: no row is skipped, and the dataset
    has four genes. *)
Theorem gene_count_off_on_collision :
  numberToString 5%float = "5" ->
  Forall (fun r => rowSkipped r = false) collidingRows
  /\ exists data, processExcelFile collidingRows = inr data
       /\ genes data = [geneC; geneB; geneC; geneB]
       /\ length (genes data) = 4%nat.
Proof.
  intros H. split; [repeat constructor|].
  rewrite processExcelFile_validated by (vm_compute; discriminate).
  cbv zeta.
  replace (geneDataOf _ _ _ collidingRows) with [geneA; geneB; geneC]
    by (symmetry; exact collidingRows_validated).
  eexists. split; [reflexivity|]. cbn [genes].
  rewrite (sortedGeneDataOf_collision H). split; reflexivity.
Qed.

(** *** What holds without a collision *)

Lemma trim_whitespace (s : string) : allChars isWhiteSpace s = true -> trim s = "".
Proof.
  unfold trim. induction s as [|c s IH]; simpl; [reflexivity|].
  intros H. apply andb_true_iff in H as [Hc Hs]. rewrite Hc. now apply IH.
Qed.

(** A row with a blank identifier is skipped. *)
Lemma blank_identifier_skipped (row : Row) : identifierBlank row -> rowSkipped row = true.
Proof.
  unfold identifierBlank, rowSkipped, geneIdOf.
  destruct (jsOr _ _) as [[n|s]|]; [intros []| |reflexivity].
  intros H. now rewrite (trim_whitespace _ H).
Qed.

(** The validated genes are as many as the rows that are not skipped. *)
Lemma geneDataOf_length (comps pcols : list string) (ccol : option string) (rawData : list Row) :
  (length (geneDataOf comps pcols ccol rawData) + length (List.filter rowSkipped rawData)
   = length rawData)%nat.
Proof.
  unfold geneDataOf. induction rawData as [|r rows IH]; simpl; [reflexivity|].
  pose proof (geneOfRow_None comps pcols ccol r) as Hr.
  destruct (geneOfRow comps pcols ccol r) as [g|].
  - destruct (rowSkipped r); [destruct Hr as [_ Hr]; discriminate Hr; reflexivity|].
    simpl. f_equal. exact IH.
  - rewrite (proj1 Hr eq_refl). simpl. rewrite Nat.add_succ_r. f_equal. exact IH.
Qed.

Lemma geneDataOf_string_categories (comps pcols : list string) (rawData : list Row) :
  stringCategories rawData ->
  forall g, In g (geneDataOf comps pcols (categoryColOf (headersOf rawData)) rawData) ->
    exists s, category g = CStr s.
Proof.
  intros Hs g Hg. unfold geneDataOf in Hg.
  apply list_elem_of_In, list_elem_of_omap in Hg as (row & Hrow & Hgene).
  apply list_elem_of_In in Hrow. specialize (Hs row).
  unfold geneOfRow in Hgene.
  destruct (jsNot (geneIdOf row)); [discriminate|].
  destruct (geneIdOf row); [|discriminate]. injection Hgene as <-. cbn [category].
  destruct (categoryCell _ row) as [v|]; simpl; [|eauto].
  destruct (Hs v Hrow eq_refl) as [s ->]. simpl.
  destruct (negb (String.eqb s "")); simpl; eauto.
Qed.

(** X19.  With string categories the dataset holds every validated gene
    exactly once, and as many genes as the table has rows that are not
    skipped. *)
Lemma dataset_genes_perm (rawData : list Row) (data : dataset) :
  processExcelFile rawData = inr data -> stringCategories rawData ->
  Permutation
    (geneDataOf (comparisonsOf (headersOf rawData)) (pValueColumnsOf (headersOf rawData))
       (categoryColOf (headersOf rawData)) rawData)
    (genes data)
  /\ Z.of_nat (length (genes data))
     = Z.of_nat (length rawData) - Z.of_nat (length (List.filter rowSkipped rawData)).
Proof.
  intros H Hs.
  assert (Hc : comparisonsOf (headersOf rawData) <> []).
  { intros Hc. unfold processExcelFile in H.
    repeat match type of H with
           | (if ?b then _ else _) = _ => destruct b eqn:?; [discriminate H|]
           end.
    rewrite Hc in *. discriminate. }
  rewrite (processExcelFile_validated _ Hc) in H. cbv zeta in H.
  pose proof (geneDataOf_length (comparisonsOf (headersOf rawData))
                (pValueColumnsOf (headersOf rawData))
                (categoryColOf (headersOf rawData)) rawData) as Hlen.
  pose proof (geneDataOf_string_categories (comparisonsOf (headersOf rawData))
                (pValueColumnsOf (headersOf rawData)) rawData Hs) as Hstr.
  destruct (geneDataOf _ _ _ rawData) as [|g gs] eqn:Hgd; [discriminate H|].
  injection H as <-. cbn [genes].
  pose proof (sortedGeneDataOf_perm _ (string_categories_keysSeparate _ Hstr)) as Hp.
  split; [exact Hp|]. rewrite <- (Permutation_length Hp). lia.
Qed.

Lemma groupStep_fold_stores (geneData : list gene) (cs : list cell) (m : gmap string (list gene)) :
  storesOnly geneData m -> storesOnly geneData (fold_left (groupStep geneData) cs m).
Proof.
  revert m. induction cs as [|c cs IH]; intros m Hm; simpl; [exact Hm|].
  apply IH. unfold groupStep. destruct (0 <? _); [|exact Hm].
  intros k l g Hk Hg. destruct (decide (propertyKey c = k)) as [<-|Hne].
  - rewrite lookup_insert_eq in Hk. injection Hk as <-.
    now apply filter_In in Hg as [Hg _].
  - rewrite lookup_insert_ne in Hk by exact Hne. exact (Hm k l g Hk Hg).
Qed.

Lemma sortStep_fold_stores (geneData : list gene) (cs : list cell)
    (m : gmap string (list gene)) (out : list gene) :
  storesOnly geneData m -> (forall g, In g out -> In g geneData) ->
  forall g, In g (fold_left sortStep cs (m, out)).2 -> In g geneData.
Proof.
  revert m out. induction cs as [|c cs IH]; intros m out Hm Hout; simpl; [exact Hout|].
  unfold sortStep at 2. cbn [fst snd].
  destruct (m !! propertyKey c) as [l|] eqn:Hl; [|now apply IH].
  apply IH.
  - intros k l' g Hk Hg. destruct (decide (propertyKey c = k)) as [<-|Hne].
    + rewrite lookup_insert_eq in Hk. injection Hk as <-.
      apply (Hm _ l g Hl). apply (Permutation_in _ (Permutation_sym (arraySort_perm _ l)) Hg).
    + rewrite lookup_insert_ne in Hk by exact Hne. exact (Hm k l' g Hk Hg).
  - intros g Hg. apply in_app_or in Hg as [Hg|Hg]; [now apply Hout|].
    apply (Hm _ l g Hl). apply (Permutation_in _ (Permutation_sym (arraySort_perm _ l)) Hg).
Qed.

Lemma sortedGeneDataOf_subset (geneData : list gene) (g : gene) :
  In g (sortedGeneDataOf geneData) -> In g geneData.
Proof.
  unfold sortedGeneDataOf. apply sortStep_fold_stores; [|intros ? []].
  apply groupStep_fold_stores. intros k l g' Hk. rewrite lookup_empty in Hk. discriminate.
Qed.

(** ** Export and re-import *)

(** The schema fields of a dataset are those detected in the headers, and its
    genes come from the validated rows. *)
Lemma processExcelFile_fields (rawData : list Row) (data : dataset) :
  processExcelFile rawData = inr data ->
  comparisonColumns data = comparisonsOf (headersOf rawData)
  /\ comparisons data = map shortName (comparisonsOf (headersOf rawData))
  /\ pValueColumns data = pValueColumnsOf (headersOf rawData)
  /\ forall g, In g (genes data) ->
       In g (geneDataOf (comparisonsOf (headersOf rawData)) (pValueColumnsOf (headersOf rawData))
               (categoryColOf (headersOf rawData)) rawData).
Proof.
  unfold processExcelFile. intros H.
  repeat match type of H with
         | (if ?b then _ else _) = _ => destruct b; [discriminate H|]
         end.
  injection H as <-. cbn [comparisonColumns comparisons pValueColumns genes].
  repeat split. apply sortedGeneDataOf_subset.
Qed.

Lemma geneDataOf_pValues (comps pcols : list string) (ccol : option string)
    (rawData : list Row) (g : gene) :
  In g (geneDataOf comps pcols ccol rawData) -> length (pValues g) = length pcols.
Proof.
  unfold geneDataOf. intros Hg.
  apply list_elem_of_In, list_elem_of_omap in Hg as (row & _ & Hgene).
  unfold geneOfRow in Hgene.
  destruct (jsNot (geneIdOf row)); [discriminate|].
  destruct (geneIdOf row); [|discriminate]. injection Hgene as <-.
  cbn [pValues]. now rewrite length_map.
Qed.

(** No exported header matches the p-value pattern: the export writes the
    marker "P-value", the pattern asks for "P value". *)
Lemma exportHeaders_not_pValue (data : dataset) (h : string) :
  In h (exportHeaders data) -> test pValuePattern h = false.
Proof.
  unfold exportHeaders. intros Hin.
  apply in_app_or in Hin as [[<-|[<-|[]]]|Hin]; [reflexivity|reflexivity|].
  apply in_app_or in Hin as [Hin|Hin]; apply in_map_iff in Hin as (name & <- & _); reflexivity.
Qed.

Lemma firstOccurrences_In (seen headers : list string) (h : string) :
  In h (firstOccurrences seen headers) -> In h headers.
Proof.
  revert seen. induction headers as [|h0 r IH]; intros seen; simpl; [trivial|].
  destruct (existsb _ seen); [right; eauto|].
  intros [->|Hin]; [now left|right; eauto].
Qed.

Lemma readBackRow_keys (headers : list string) (obj : jsObject) (h : string) :
  In h (map fst (readBackRow headers obj)) -> In h headers.
Proof.
  unfold readBackRow. intros Hin. apply in_map_iff in Hin as ((k & v) & <- & Hkv).
  apply list_elem_of_In, list_elem_of_omap in Hkv as (h' & Hh' & Hsome).
  apply list_elem_of_In, firstOccurrences_In in Hh'.
  destruct (List.find _ obj) as [[k' [v'|]]|]; try discriminate.
  injection Hsome as <- _. exact Hh'.
Qed.

(** X24.  A re-import of an exported dataset has no p-value column, and none
    of its genes has a p-value. *)
Lemma reimport_has_no_pValues (data data' : dataset) :
  processExcelFile (exportedTable data) = inr data' ->
  pValueColumns data' = [] /\ Forall (fun g => pValues g = []) (genes data').
Proof.
  intros H. destruct (processExcelFile_fields _ _ H) as (_ & _ & Hp & Hg).
  assert (Hnil : pValueColumnsOf (headersOf (exportedTable data)) = []).
  { apply filter_nil_iff. intros h Hh. apply (exportHeaders_not_pValue data).
    unfold exportedTable, headersOf in Hh.
    destruct (genes data) as [|g gs]; [destruct Hh|].
    cbn [map] in Hh. now apply readBackRow_keys in Hh. }
  rewrite Hnil in *. split; [exact Hp|].
  apply List.Forall_forall. intros g Hin. apply Hg, geneDataOf_pValues in Hin.
  now destruct (pValues g).
Qed.

(** C4 at the dataset of the example scenario: the exported table is read back
    with its genes, fold changes and categories, and without its p-values. *)
Theorem reimport_loses_pValues :
  exportedTable exampleData =
    [ [("Gene ID", CStr "B"); ("Category", CStr "Lipid");
       ("Log2FC (Ctrl vs KD)", CNum (-0.5)%float); ("P-value (Ctrl vs KD)", CNum 0.2%float)];
      [("Gene ID", CStr "A"); ("Category", CStr "Lipid");
       ("Log2FC (Ctrl vs KD)", CNum 1.2%float); ("P-value (Ctrl vs KD)", CNum 0.03%float)] ]
  /\ processExcelFile (exportedTable exampleData) = inr reimportedExample
  /\ map pValues (genes exampleData) = [[Some 0.2%float]; [Some 0.03%float]]
  /\ map pValues (genes reimportedExample) = [[]; []].
Proof. repeat split; vm_compute; reflexivity. Qed.


(** * Further properties of the pipeline *)

(** ** The shape of the genes *)

Lemma geneOfRow_shape (comps pcols : list string) (ccol : option string) (r : Row) (g : gene) :
  geneOfRow comps pcols ccol r = Some g ->
  length (values g) = length comps /\ length (pValues g) = length pcols
  /\ geneIdOf r = Some (id g) /\ truthy (id g) = true
  /\ category g = match jsOr (categoryCell ccol r) (Some (CStr "Uncategorized")) with
                  | Some c => c
                  | None => CStr "Uncategorized"
                  end.
Proof.
  unfold geneOfRow, jsNot. destruct (geneIdOf r) as [c|]; [|discriminate].
  destruct (truthy c) eqn:Ht; [|discriminate]. simpl. intros H. injection H as <-.
  cbn [values pValues id category]. rewrite !length_map. auto.
Qed.

Lemma dataset_gene_origin (rawData : list Row) (data : dataset) (g : gene) :
  processExcelFile rawData = inr data -> In g (genes data) ->
  exists r, In r rawData
    /\ geneOfRow (comparisonColumns data) (pValueColumns data)
         (categoryColOf (headersOf rawData)) r = Some g.
Proof.
  intros H Hg. destruct (processExcelFile_fields _ _ H) as (Hc & _ & Hp & Hin).
  apply Hin in Hg. unfold geneDataOf in Hg.
  apply list_elem_of_In, list_elem_of_omap in Hg as (r & Hr & Hgene).
  exists r. split; [now apply list_elem_of_In|]. now rewrite Hc, Hp.
Qed.

(** X1.  In every dataset each gene has one value per comparison column and
    one p-value per p-value column, and there is one display name per
    comparison column. *)
Theorem dataset_gene_shape (rawData : list Row) (data : dataset) :
  processExcelFile rawData = inr data ->
  length (comparisons data) = length (comparisonColumns data)
  /\ Forall (fun g => length (values g) = length (comparisonColumns data)
                      /\ length (pValues g) = length (pValueColumns data)) (genes data).
Proof.
  intros H. destruct (processExcelFile_fields _ _ H) as (Hc & Hn & _ & _).
  split; [now rewrite Hn, Hc, length_map|].
  apply List.Forall_forall. intros g Hg.
  destruct (dataset_gene_origin _ _ _ H Hg) as (r & _ & Hr).
  apply geneOfRow_shape in Hr. tauto.
Qed.

(** ** Identifiers and categories *)

Lemma trimEnd_cons (c : ascii) (r : string) :
  trimEnd (String c r) =
  match trimEnd r with
  | EmptyString => if isWhiteSpace c then EmptyString else String c EmptyString
  | r' => String c r'
  end.
Proof. reflexivity. Qed.

Lemma trimEnd_idem (s : string) : trimEnd (trimEnd s) = trimEnd s.
Proof.
  induction s as [|c r IH]; [reflexivity|]. rewrite trimEnd_cons.
  destruct (trimEnd r) as [|d t] eqn:E.
  - destruct (isWhiteSpace c) eqn:Hc; [reflexivity|].
    rewrite trimEnd_cons. simpl. now rewrite Hc.
  - rewrite trimEnd_cons, IH. reflexivity.
Qed.

Lemma trimStart_head (s : string) :
  trimStart s = EmptyString \/ exists c r, trimStart s = String c r /\ isWhiteSpace c = false.
Proof.
  induction s as [|c r IH]; [now left|]. simpl.
  destruct (isWhiteSpace c) eqn:Hc; [exact IH|]. right. eauto.
Qed.

Lemma trimEnd_head (c : ascii) (r : string) :
  isWhiteSpace c = false -> exists t, trimEnd (String c r) = String c t.
Proof.
  intros Hc. rewrite trimEnd_cons. destruct (trimEnd r); [rewrite Hc|]; eauto.
Qed.

(** Trimming twice is trimming once. *)
Lemma trim_idem (s : string) : trim (trim s) = trim s.
Proof.
  unfold trim. destruct (trimStart_head s) as [->|(c & r & -> & Hc)]; [reflexivity|].
  destruct (trimEnd_head c r Hc) as [t Ht].
  assert (E : trimStart (trimEnd (String c r)) = trimEnd (String c r)).
  { rewrite Ht. simpl. now rewrite Hc. }
  rewrite E. apply trimEnd_idem.
Qed.

Lemma strictEq_refl_truthy (c : cell) : truthy c = true -> strictEq c c = true.
Proof.
  destruct c as [n|s]; simpl.
  - unfold PrimFloat.is_nan. destruct (PrimFloat.eqb n n); [reflexivity|].
    rewrite orb_true_r. discriminate.
  - intros _. apply String.eqb_refl.
Qed.

Lemma dataset_category_truthy (rawData : list Row) (data : dataset) (g : gene) :
  processExcelFile rawData = inr data -> In g (genes data) -> truthy (category g) = true.
Proof.
  intros H Hg. destruct (dataset_gene_origin _ _ _ H Hg) as (r & _ & Hr).
  apply geneOfRow_shape in Hr as (_ & _ & _ & _ & ->).
  unfold jsOr. destruct (categoryCell _ r) as [c|]; [|reflexivity].
  destruct (truthy c) eqn:Hc; [exact Hc|reflexivity].
Qed.

(** X2.  In every dataset each gene has a truthy identifier, which when it is
    a string is not empty and carries no white space at either end, and a
    truthy category: never the empty string, 0 or NaN. *)
Theorem dataset_identifiers_trimmed (rawData : list Row) (data : dataset) :
  processExcelFile rawData = inr data ->
  Forall (fun g => truthy (id g) = true /\ truthy (category g) = true
                   /\ forall s, id g = CStr s -> trim s = s /\ s <> "") (genes data).
Proof.
  intros H. apply List.Forall_forall. intros g Hg.
  destruct (dataset_gene_origin _ _ _ H Hg) as (r & _ & Hr).
  apply geneOfRow_shape in Hr as (_ & _ & Hid & Ht & Hcat).
  split; [exact Ht|]. split.
  - now apply (dataset_category_truthy rawData data).
  - intros s Hs. rewrite Hs in *. split.
    + unfold geneIdOf in Hid. destruct (jsOr _ _) as [[n|s0]|]; try discriminate.
      injection Hid as <-. apply trim_idem.
    + intros ->. discriminate Ht.
Qed.

Lemma find_none_all {A : Type} (f : A -> bool) (l : list A) :
  (forall x, In x l -> f x = false) -> List.find f l = None.
Proof.
  induction l as [|a l IH]; [reflexivity|]. intros H. simpl.
  rewrite (H a (or_introl eq_refl)). apply IH. intros x Hx. apply H. now right.
Qed.

(** X3.  When no header of the first row holds "category" in any
    capitalisation, and no row has a column named "undefined", every gene of
    the dataset is in the category "Uncategorized". *)
Theorem no_category_column_uncategorized (rawData : list Row) (data : dataset) :
  processExcelFile rawData = inr data ->
  (forall h, In h (headersOf rawData) -> includes (toLowerCase h) "category" = false) ->
  (forall r, In r rawData -> get r "undefined" = None) ->
  Forall (fun g => category g = CStr "Uncategorized") (genes data).
Proof.
  intros H Hnone Hundef. apply List.Forall_forall. intros g Hg.
  destruct (dataset_gene_origin _ _ _ H Hg) as (r & Hr & Hgene).
  apply geneOfRow_shape in Hgene as (_ & _ & _ & _ & ->).
  assert (Hcol : categoryColOf (headersOf rawData) = None).
  { unfold categoryColOf. apply find_none_all. exact Hnone. }
  rewrite Hcol. unfold categoryCell. now rewrite (Hundef r Hr).
Qed.

(** X4.  The [categories] field of a dataset lists the categories of its genes
    without repetition: its elements are pairwise different, each is the
    category of a gene, and the category of every gene is strictly equal to one
    of them. *)
Theorem dataset_categories_distinct (rawData : list Row) (data : dataset) :
  processExcelFile rawData = inr data ->
  distinctCells (categories data)
  /\ (forall c, In c (categories data) -> exists g, In g (genes data) /\ category g = c)
  /\ (forall g, In g (genes data) ->
        exists c, In c (categories data) /\ strictEq (category g) c = true).
Proof.
  intros H.
  assert (E : categories data = setOf (map category (genes data))).
  { unfold processExcelFile in H.
    repeat match type of H with
           | (if ?b then _ else _) = _ => destruct b; [discriminate H|]
           end.
    injection H as <-. reflexivity. }
  rewrite E. destruct (fold_addToSet (map category (genes data)) [] I) as (H1 & H2 & H3).
  split; [exact H1|]. split.
  - intros c Hc. destruct (H2 c Hc) as [[]|Hin].
    apply in_map_iff in Hin as (g & <- & Hg). now exists g.
  - intros g Hg. destruct (H3 (category g)) as (c & Hc & Hs).
    { right. now apply in_map. }
    exists c. split; [exact Hc|].
    apply sameValueZero_strictEq; [|exact Hs].
    apply strictEq_refl_truthy. now apply (dataset_category_truthy rawData data).
Qed.


(** ** The label of a category group *)

Lemma groupsFrom_labels (l pre : list gene) (c : cell) (start : Z) :
  start < Z.of_nat (length pre) ->
  (forall g, In g l -> strictEq (category g) (category g) = true) ->
  (forall k g, start <= Z.of_nat k -> pre !! k = Some g -> strictEq (category g) c = true) ->
  forall grp, In grp (groupsFrom (Some c) start (Z.of_nat (length pre)) l) ->
  forall k g, startIndex grp <= Z.of_nat k <= endIndex grp -> (pre ++ l) !! k = Some g ->
    strictEq (category g) (groupCategory grp) = true.
Proof.
  revert pre c start. induction l as [|g0 l IH]; intros pre c start Hlt Hrefl Hinv grp;
    cbn [groupsFrom].
  - simpl. intros [<-|[]] k g Hk. cbn [startIndex endIndex groupCategory] in *.
    rewrite app_nil_r. apply Hinv. lia.
  - assert (Hlen : Z.of_nat (length pre) + 1 = Z.of_nat (length (pre ++ [g0]))).
    { rewrite length_app. simpl. lia. }
    assert (Hsnoc : forall k g, (pre ++ [g0]) !! k = Some g ->
              pre !! k = Some g \/ (k = length pre /\ g = g0)).
    { intros k g Hk. destruct (Nat.lt_ge_cases k (length pre)) as [Hin|Hout].
      - left. now rewrite lookup_app_l in Hk.
      - right. rewrite lookup_app_r in Hk by exact Hout.
        destruct (k - length pre)%nat as [|d] eqn:Hd; simpl in Hk; [|discriminate].
        injection Hk as <-. split; [lia|reflexivity]. }
    replace (pre ++ g0 :: l) with ((pre ++ [g0]) ++ l) by now rewrite <- app_assoc.
    rewrite Hlen.
    destruct (differsFrom (category g0) (Some c)) eqn:Hd.
    + cbn [closeGroup app]. intros [<-|Hin] k g Hk Hg.
      * cbn [startIndex endIndex groupCategory] in *.
        rewrite lookup_app_l in Hg by (rewrite length_app; simpl; lia).
        rewrite lookup_app_l in Hg by lia. apply (Hinv k); [lia|exact Hg].
      * refine (IH (pre ++ [g0]) (category g0) (Z.of_nat (length pre)) _ _ _ grp _ k g Hk Hg).
        -- lia.
        -- intros g' Hg'. apply Hrefl. now right.
        -- intros k' g' Hk' Hg'. destruct (Hsnoc _ _ Hg') as [Hpre|[_ ->]].
           ++ apply lookup_lt_Some in Hpre. lia.
           ++ apply Hrefl. now left.
        -- exact Hin.
    + intros Hin k g Hk Hg.
      refine (IH (pre ++ [g0]) c start _ _ _ grp _ k g Hk Hg).
      * lia.
      * intros g' Hg'. apply Hrefl. now right.
      * intros k' g' Hk' Hg'. destruct (Hsnoc _ _ Hg') as [Hpre|[_ ->]].
        -- now apply (Hinv k').
        -- simpl in Hd. now apply negb_false_iff in Hd.
      * exact Hin.
Qed.

Lemma categoryGroupsOf_labels (l : list gene) :
  (forall g, In g l -> strictEq (category g) (category g) = true) ->
  forall grp, In grp (categoryGroupsOf l) ->
  forall k g, startIndex grp <= Z.of_nat k <= endIndex grp -> l !! k = Some g ->
    strictEq (category g) (groupCategory grp) = true.
Proof.
  rewrite categoryGroupsOf_groupsFrom. destruct l as [|g0 l]; [intros _ grp []|].
  cbn [groupsFrom differsFrom closeGroup app]. intros Hrefl grp Hin k g Hk Hg.
  refine (groupsFrom_labels l [g0] (category g0) 0 _ _ _ grp Hin k g Hk Hg).
  - simpl. lia.
  - intros g' Hg'. apply Hrefl. now right.
  - intros [|k'] g' _ Hg'; simpl in Hg'; [|discriminate].
    injection Hg' as <-. apply Hrefl. now left.
Qed.

(** X5.  Every gene in the rows a category group spans has the category the
    group is labelled with. *)
Theorem category_group_label (rawData : list Row) (data : dataset) :
  processExcelFile rawData = inr data ->
  forall grp, In grp (categoryGroups data) ->
  forall k g, startIndex grp <= Z.of_nat k <= endIndex grp -> genes data !! k = Some g ->
    strictEq (category g) (groupCategory grp) = true.
Proof.
  intros H.
  assert (E : categoryGroups data = categoryGroupsOf (genes data)).
  { unfold processExcelFile in H.
    repeat match type of H with
           | (if ?b then _ else _) = _ => destruct b; [discriminate H|]
           end.
    injection H as <-. reflexivity. }
  rewrite E. apply categoryGroupsOf_labels.
  intros g Hg. apply strictEq_refl_truthy. now apply (dataset_category_truthy rawData data).
Qed.

(** ** The marker and its radius *)

(** X6.  A circle is drawn exactly when its radius is not 0, whatever the
    p-value (a number, null or undefined), and the radius is 0, 2, 3 or 5. *)
Theorem marker_drawn_iff_radius (pValue : jsnum) :
  (circleDrawn pValue = true <-> circleRadius pValue <> 0)
  /\ In (circleRadius pValue) [0; 2; 3; 5].
Proof.
  unfold circleDrawn, circleRadius, getSizeForPValue, isSignificant, isMarginal, jsLt, jsGe.
  set (x := toNumber pValue).
  destruct (PrimFloat.ltb x 0.05) eqn:Hsig.
  - rewrite (ltb_not_leb _ _ Hsig). simpl.
    destruct (PrimFloat.ltb x 0.01); split; try (split; [discriminate|reflexivity]);
      simpl; auto.
  - simpl. destruct (PrimFloat.leb 0.05 x && PrimFloat.ltb x 0.1); split;
      try (split; congruence); simpl; auto.
Qed.

(** X7.  A cell in a column past the last p-value column shows no marker: a
    dataset with fewer p-value columns than comparison columns has no circle in
    the comparison columns left over. *)
Theorem no_marker_past_pValue_columns (rawData : list Row) (data : dataset)
    (g : gene) (j : nat) :
  processExcelFile rawData = inr data -> In g (genes data) ->
  (length (pValueColumns data) <= j)%nat ->
  circleDrawn (pValueAt g j) = false /\ circleRadius (pValueAt g j) = 0.
Proof.
  intros H Hg Hj. destruct (dataset_gene_origin _ _ _ H Hg) as (r & _ & Hr).
  apply geneOfRow_shape in Hr as (_ & Hp & _).
  unfold pValueAt. rewrite lookup_ge_None_2 by lia. split; vm_compute; reflexivity.
Qed.


(** * The selection *)

Lemma isCell_eq (i j : nat) (c : cellRef) : isCell i j c = true <-> c = mkCell i j.
Proof.
  destruct c as [r k]. unfold isCell. cbn [row col].
  rewrite andb_true_iff, !Nat.eqb_eq. split; [intros [-> ->]; reflexivity|].
  intros H. injection H as -> ->. auto.
Qed.

Lemma findIndex_Some {A : Type} (P : A -> bool) (l : list A) (idx : nat) :
  findIndex P l = Some idx ->
  exists l1 x l2, l = l1 ++ x :: l2 /\ length l1 = idx /\ P x = true
                  /\ forall y, In y l1 -> P y = false.
Proof.
  revert idx. induction l as [|a l IH]; intros idx; simpl; [discriminate|].
  destruct (P a) eqn:Ha.
  - intros H. injection H as <-. exists [], a, l. repeat split; auto. intros y [].
  - destruct (findIndex P l) as [k|]; [|discriminate]. simpl. intros H. injection H as <-.
    destruct (IH k eq_refl) as (l1 & x & l2 & -> & Hlen & Hx & Hl1).
    exists (a :: l1), x, l2. simpl. repeat split; auto.
    intros y [<-|Hy]; auto.
Qed.

Lemma findIndex_None {A : Type} (P : A -> bool) (l : list A) :
  findIndex P l = None -> forall y, In y l -> P y = false.
Proof.
  induction l as [|a l IH]; simpl; [intros _ y []|].
  destruct (P a) eqn:Ha; [discriminate|].
  destruct (findIndex P l); [discriminate|]. intros _ y [<-|Hy]; auto.
Qed.

Lemma filterIndex_all {A : Type} (keep : nat -> bool) (n : nat) (l : list A) :
  (forall k, (n <= k)%nat -> keep k = true) -> filterIndex keep n l = l.
Proof.
  revert n. induction l as [|a l IH]; intros n H; simpl; [reflexivity|].
  rewrite (H n) by lia. f_equal. apply IH. intros k Hk. apply H. lia.
Qed.

Lemma filterIndex_drop {A : Type} (l1 : list A) (x : A) (l2 : list A) (n idx : nat) :
  (n + length l1)%nat = idx ->
  filterIndex (fun k => negb (Nat.eqb k idx)) n (l1 ++ x :: l2) = l1 ++ l2.
Proof.
  revert n. induction l1 as [|a l1 IH]; intros n Hn; simpl in *.
  - replace (Nat.eqb n idx) with true by (symmetry; apply Nat.eqb_eq; lia). simpl.
    apply filterIndex_all. intros k Hk.
    apply negb_true_iff, Nat.eqb_neq. lia.
  - replace (Nat.eqb n idx) with false by (symmetry; apply Nat.eqb_neq; lia). simpl.
    f_equal. apply IH. lia.
Qed.

(** X8.  A click on a cell toggles it and nothing else: on a selection without
    repetition the cell is selected afterwards exactly when it was not before,
    every other cell keeps its state, and the selection stays without
    repetition. *)
Theorem handleCellClick_toggles (selectedCells : list cellRef) (i j : nat) :
  List.NoDup selectedCells ->
  List.NoDup (handleCellClick selectedCells i j)
  /\ (In (mkCell i j) (handleCellClick selectedCells i j) <-> ~ In (mkCell i j) selectedCells)
  /\ (forall c, c <> mkCell i j ->
        (In c (handleCellClick selectedCells i j) <-> In c selectedCells)).
Proof.
  intros Hnd. unfold handleCellClick.
  destruct (findIndex (isCell i j) selectedCells) as [idx|] eqn:Hfind.
  - apply findIndex_Some in Hfind as (l1 & x & l2 & -> & Hlen & Hx & _).
    apply isCell_eq in Hx. subst x.
    rewrite (filterIndex_drop l1 (mkCell i j) l2 0 idx) by (simpl; exact Hlen).
    split; [now apply List.NoDup_remove_1 in Hnd|]. split.
    + split.
      * intros Hin. now apply List.NoDup_remove_2 in Hnd.
      * intros Hnot. exfalso. apply Hnot. apply in_or_app. right. now left.
    + intros c Hc. rewrite !in_app_iff. simpl. split; [tauto|].
      intros [H|[H|H]]; auto. congruence.
  - pose proof (findIndex_None _ _ Hfind) as Hnone.
    assert (Hnot : ~ In (mkCell i j) selectedCells).
    { intros Hin. specialize (Hnone _ Hin).
      assert (isCell i j (mkCell i j) = true) by now apply isCell_eq. congruence. }
    split.
    + clear Hnone Hfind. induction selectedCells as [|a l IH]; simpl.
      * constructor; [intros []|constructor].
      * inversion Hnd as [|? ? Ha Hl]; subst. constructor.
        -- rewrite in_app_iff. simpl. intros [H|[H|[]]]; [contradiction|].
           apply Hnot. left. congruence.
        -- apply IH; [exact Hl|]. intros H. apply Hnot. now right.
    + split.
      * split; [intros _; exact Hnot|]. intros _. apply in_or_app. right. now left.
      * intros c Hc. rewrite in_app_iff. simpl. split; [|tauto].
        intros [H|[H|[]]]; [exact H|congruence].
Qed.

Lemma selectedIds_spec (gs : list gene) (selectedCells : list cellRef) :
  match selectedIds gs selectedCells with
  | None => exists c, In c selectedCells /\ (length gs <= row c)%nat
  | Some ids =>
      (forall c, In c selectedCells -> (row c < length gs)%nat)
      /\ forall x, existsb (sameValueZero x) ids
                   = existsb (fun c => match gs !! row c with
                                       | Some g' => sameValueZero x (id g')
                                       | None => false
                                       end) selectedCells
  end.
Proof.
  induction selectedCells as [|c r IH]; simpl.
  - split; [intros c []|reflexivity].
  - destruct (gs !! row c) as [g|] eqn:Hg.
    + destruct (selectedIds gs r) as [ids|]; simpl.
      * destruct IH as [Hin Hex]. split.
        -- intros c' [<-|Hc']; [now apply lookup_lt_Some in Hg|auto].
        -- intros x. now rewrite Hex.
      * destruct IH as (c' & Hc' & Hout). exists c'. auto.
    + exists c. split; [now left|]. now apply lookup_ge_None in Hg.
Qed.

Lemma includesCell_setOf (ids : list cell) (x : cell) :
  includesCell (setOf ids) x = existsb (sameValueZero x) ids.
Proof.
  destruct (fold_addToSet ids [] I) as (_ & H2 & H3). fold (setOf ids) in H2, H3.
  unfold includesCell. apply eq_true_iff_eq. rewrite !existsb_exists. split.
  - intros (c & Hc & Hs). exists c. split; [|exact Hs].
    destruct (H2 c Hc) as [[]|Hin]. exact Hin.
  - intros (y & Hy & Hs). destruct (H3 y (or_intror Hy)) as (c & Hc & Hyc).
    exists c. split; [exact Hc|]. exact (sameValueZero_trans _ _ _ Hs Hyc).
Qed.

(** X9.  [exportSelection] writes nothing for an empty selection, throws when a
    selected row is not a row of the dataset, and otherwise writes, in the
    order of the dataset, the genes whose identifier is that of the gene of a
    selected row: the column of a selected cell plays no part. *)
Theorem exportSelection_outcome (data : dataset) (selectedCells : list cellRef) :
  (selectedCells = [] -> exportSelection selectedCells data = NothingExported)
  /\ (selectedCells <> [] ->
      (exists c, In c selectedCells /\ (length (genes data) <= row c)%nat) ->
      exportSelection selectedCells data = ExportThrows)
  /\ (selectedCells <> [] ->
      (forall c, In c selectedCells -> (row c < length (genes data))%nat) ->
      exportSelection selectedCells data
      = SheetWritten (exportHeaders data)
          (map (exportRow data) (List.filter (selectedById data selectedCells) (genes data)))).
Proof.
  unfold exportSelection. split; [intros ->; reflexivity|].
  pose proof (selectedIds_spec (genes data) selectedCells) as Hspec.
  split; intros Hne Hrows.
  - destruct selectedCells as [|c0 r]; [congruence|]. cbn [length Nat.eqb].
    destruct (selectedIds (genes data) (c0 :: r)) as [ids|]; [|reflexivity].
    destruct Hspec as [Hin _]. destruct Hrows as (c & Hc & Hout).
    specialize (Hin c Hc). lia.
  - destruct selectedCells as [|c0 r]; [congruence|]. cbn [length Nat.eqb].
    destruct (selectedIds (genes data) (c0 :: r)) as [ids|].
    + destruct Hspec as [_ Hex]. cbv zeta. do 2 f_equal.
      apply List.filter_ext. intros g. rewrite includesCell_setOf. apply Hex.
    + destruct Hspec as (c & Hc & Hout). specialize (Hrows c Hc). lia.
Qed.

(** * The exported row *)

Lemma getProp_setProp_eq (obj : jsObject) (key : string) (v : option cell) :
  getProp (setProp obj key v) key = v.
Proof.
  unfold getProp. induction obj as [|[k w] r IH]; simpl.
  - now rewrite String.eqb_refl.
  - destruct (String.eqb k key) eqn:Hk; simpl; rewrite Hk; [reflexivity|exact IH].
Qed.

Lemma getProp_setProp_ne (obj : jsObject) (key key' : string) (v : option cell) :
  key <> key' -> getProp (setProp obj key v) key' = getProp obj key'.
Proof.
  intros Hne. unfold getProp. induction obj as [|[k w] r IH]; simpl.
  - now apply String.eqb_neq in Hne as ->.
  - destruct (String.eqb k key) eqn:Hk; simpl.
    + apply String.eqb_eq in Hk as ->. now apply String.eqb_neq in Hne as ->.
    + destruct (String.eqb k key'); [reflexivity|exact IH].
Qed.

Lemma append_paren_inj (s t : string) : (s ++ ")")%string = (t ++ ")")%string -> s = t.
Proof.
  revert t. induction s as [|c s IH]; intros [|d t]; simpl; intros H.
  - reflexivity.
  - injection H as _ H. destruct t; discriminate.
  - injection H as _ H. destruct s; discriminate.
  - injection H as -> H. f_equal. now apply IH.
Qed.

Lemma log2fcHeader_inj (n n' : string) : log2fcHeader n = log2fcHeader n' -> n = n'.
Proof. unfold log2fcHeader. simpl. intros H. injection H as H. now apply append_paren_inj. Qed.

Lemma pvalueHeader_inj (n n' : string) : pvalueHeader n = pvalueHeader n' -> n = n'.
Proof. unfold pvalueHeader. simpl. intros H. injection H as H. now apply append_paren_inj. Qed.

Lemma exportColumns_other (names : list string) (i : nat) (log2fc pvals : list cell)
    (obj : jsObject) (key : string) :
  (forall n, In n names -> log2fcHeader n <> key /\ pvalueHeader n <> key) ->
  getProp (exportColumns names i log2fc pvals obj) key = getProp obj key.
Proof.
  revert i obj. induction names as [|n names IH]; intros i obj H; simpl; [reflexivity|].
  rewrite IH by (intros n' Hn'; apply H; now right).
  destruct (H n (or_introl eq_refl)) as [H1 H2].
  now rewrite !getProp_setProp_ne.
Qed.

Lemma exportColumns_lookup (names : list string) (k : nat) (name : string) (i : nat)
    (log2fc pvals : list cell) (obj : jsObject) :
  names !! k = Some name -> (forall j, (k < j)%nat -> names !! j <> Some name) ->
  getProp (exportColumns names i log2fc pvals obj) (log2fcHeader name) = log2fc !! (i + k)%nat
  /\ getProp (exportColumns names i log2fc pvals obj) (pvalueHeader name) = pvals !! (i + k)%nat.
Proof.
  revert k i obj. induction names as [|n names IH]; intros k i obj Hk Hlast; [discriminate|].
  destruct k as [|k]; simpl in Hk.
  - injection Hk as ->. cbn [exportColumns]. rewrite Nat.add_0_r.
    assert (Hother : forall n, In n names -> n <> name).
    { intros n Hn ->. apply list_elem_of_In, list_elem_of_lookup in Hn as [j Hj].
      apply (Hlast (S j)); [lia|exact Hj]. }
    rewrite !exportColumns_other.
    + split.
      * rewrite getProp_setProp_ne by (unfold log2fcHeader, pvalueHeader; simpl; discriminate).
        apply getProp_setProp_eq.
      * apply getProp_setProp_eq.
    + intros n Hn. split.
      * unfold log2fcHeader, pvalueHeader; simpl; discriminate.
      * intros E. apply pvalueHeader_inj in E. now apply (Hother n).
    + intros n Hn. split.
      * intros E. apply log2fcHeader_inj in E. now apply (Hother n).
      * unfold log2fcHeader, pvalueHeader; simpl; discriminate.
  - cbn [exportColumns]. replace (i + S k)%nat with (S i + k)%nat by lia.
    apply IH; [exact Hk|]. intros j Hj. apply (Hlast (S j)). lia.
Qed.

(** X10.  In the row exported for a gene of a dataset, "Gene ID" and "Category"
    hold its identifier and its category.  For a comparison name that no later
    comparison repeats, "Log2FC (name)" holds the fold change of that
    comparison and "P-value (name)" the p-value at the same position, the text
    N/A standing for null; the p-value cell is left undefined when there is no
    p-value column at that position. *)
Theorem exported_row_cells (rawData : list Row) (data : dataset) (g : gene)
    (i : nat) (name : string) :
  processExcelFile rawData = inr data -> In g (genes data) ->
  comparisons data !! i = Some name ->
  (forall j, (i < j)%nat -> comparisons data !! j <> Some name) ->
  getProp (exportRow data g) "Gene ID" = Some (id g)
  /\ getProp (exportRow data g) "Category" = Some (category g)
  /\ (exists v, values g !! i = Some v
                /\ getProp (exportRow data g) (log2fcHeader name) = Some (orNA v))
  /\ getProp (exportRow data g) (pvalueHeader name) = orNA <$> (pValues g !! i).
Proof.
  intros H Hg Hi Hlast. unfold exportRow.
  destruct (exportColumns_lookup (comparisons data) i name 0 (map orNA (values g))
              (map orNA (pValues g))
              [("Gene ID", Some (id g)); ("Category", Some (category g))] Hi Hlast)
    as [Hl Hp].
  rewrite !exportColumns_other
    by (intros n _; split; unfold log2fcHeader, pvalueHeader; simpl; discriminate).
  split; [reflexivity|]. split; [reflexivity|]. split.
  - destruct (processExcelFile_fields _ _ H) as (Hc & Hn & _ & _).
    destruct (dataset_gene_origin _ _ _ H Hg) as (r & _ & Hr).
    apply geneOfRow_shape in Hr as (Hv & _).
    assert (Hlt : (i < length (values g))%nat).
    { apply lookup_lt_Some in Hi. rewrite Hn, length_map in Hi. now rewrite Hv, Hc. }
    destruct (lookup_lt_is_Some_2 _ _ Hlt) as [v Hvi]. exists v. split; [exact Hvi|].
    rewrite Hl. simpl. now rewrite list_lookup_fmap, Hvi.
  - rewrite Hp. simpl. apply list_lookup_fmap.
Qed.


(** * The layout of the columns *)

Lemma totalColsWidth_snoc (ws : list float) (k : nat) (w : float) :
  ws !! k = Some w ->
  totalColsWidth (take (S k) ws) = PrimFloat.add (totalColsWidth (take k ws)) w.
Proof.
  intros H. rewrite (take_S_r _ _ _ H). unfold totalColsWidth.
  now rewrite fold_left_app.
Qed.

Lemma colX_fold (ws : list float) (m n : nat) :
  (n + m = length ws)%nat ->
  fold_left (colXStep ws) (seq n m) (map (fun k => totalColsWidth (take k ws)) (seq 0 n))
  = map (fun k => totalColsWidth (take k ws)) (seq 0 (n + m)).
Proof.
  revert n. induction m as [|m IH]; intros n Hn.
  - simpl. now rewrite Nat.add_0_r.
  - cbn [seq fold_left].
    assert (E : colXStep ws (map (fun k => totalColsWidth (take k ws)) (seq 0 n)) n
                = map (fun k => totalColsWidth (take k ws)) (seq 0 (S n))).
    { rewrite seq_S, map_app. unfold colXStep. f_equal. cbn [map]. f_equal.
      destruct n as [|k]; [reflexivity|]. simpl Nat.add.
      destruct (lookup_lt_is_Some_2 ws k) as [w Hw]; [lia|].
      rewrite (totalColsWidth_snoc _ _ _ Hw). unfold numberAt.
      rewrite list_lookup_fmap, lookup_seq_lt by lia. simpl. now rewrite Hw. }
    rewrite E. replace (n + S m)%nat with (S n + m)%nat by lia. apply IH. lia.
Qed.

(** X11.  The x position of a column is the sum of the widths of the columns
    before it, added from left to right as [totalColsWidth] adds them: the
    first column is at 0, every column starts where the one before it ends, and
    the last one ends at [totalColsWidth]. *)
Theorem colX_prefix_sums (colWidths : list float) :
  colX colWidths
  = map (fun k => totalColsWidth (take k colWidths)) (seq 0 (length colWidths))
  /\ forall k w, colWidths !! k = Some w ->
       exists x, colX colWidths !! k = Some x
         /\ (colX colWidths ++ [totalColsWidth colWidths]) !! S k = Some (PrimFloat.add x w).
Proof.
  assert (E : colX colWidths
              = map (fun k => totalColsWidth (take k colWidths)) (seq 0 (length colWidths))).
  { unfold colX. exact (colX_fold colWidths (length colWidths) 0 eq_refl). }
  split; [exact E|]. intros k w Hk.
  pose proof (lookup_lt_Some _ _ _ Hk) as Hlt.
  exists (totalColsWidth (take k colWidths)). split.
  - rewrite E, list_lookup_fmap, lookup_seq_lt by lia. reflexivity.
  - assert (E' : colX colWidths ++ [totalColsWidth colWidths]
                 = map (fun k => totalColsWidth (take k colWidths))
                     (seq 0 (S (length colWidths)))).
    { rewrite seq_S, map_app, E. cbn [map]. simpl Nat.add. now rewrite firstn_all. }
    rewrite E', list_lookup_fmap, lookup_seq_lt by lia. simpl.
    now rewrite (totalColsWidth_snoc _ _ _ Hk).
Qed.

(** ** Resizing a column *)

Lemma SFcompare_None (x y : spec_float) :
  SFcompare x y = None -> x = S754_nan \/ y = S754_nan.
Proof.
  destruct x as [s1|s1| |s1 m1 e1], y as [s2|s2| |s2 m2 e2]; simpl; auto;
    repeat match goal with
           | |- context [match ?c with _ => _ end] => destruct c
           end; discriminate.
Qed.

Lemma not_nan_compare (a : float) :
  PrimFloat.is_nan a = false -> SFcompare (Prim2SF a) (Prim2SF a) = Some Eq.
Proof.
  unfold PrimFloat.is_nan. intros H. apply negb_false_iff in H. now apply eqb_compare.
Qed.

Lemma leb_refl_number (a : float) : PrimFloat.is_nan a = false -> PrimFloat.leb a a = true.
Proof.
  intros H. apply leb_compare. exists Eq. split; [now apply not_nan_compare|congruence].
Qed.

Lemma eqb_leb (a b : float) : PrimFloat.eqb a b = true -> PrimFloat.leb a b = true.
Proof.
  rewrite eqb_compare, leb_compare. intros H. exists Eq. split; [exact H|congruence].
Qed.

Lemma float_trichotomy (a b : float) :
  PrimFloat.is_nan a = false -> PrimFloat.is_nan b = false ->
  PrimFloat.ltb a b = false -> PrimFloat.ltb b a = false -> PrimFloat.eqb a b = true.
Proof.
  intros Ha Hb Hab Hba. apply not_nan_compare in Ha, Hb.
  apply eqb_compare.
  destruct (SFcompare (Prim2SF a) (Prim2SF b)) as [[]|] eqn:Hc.
  - reflexivity.
  - apply ltb_compare in Hc. congruence.
  - assert (H : PrimFloat.ltb b a = true)
      by (apply ltb_compare; rewrite SFcompare_swap, Hc; reflexivity).
    congruence.
  - apply SFcompare_None in Hc as [Hn|Hn]; rewrite Hn in *; discriminate.
Qed.

(** [Math.max] on numbers: NaN exactly when an operand is NaN, and otherwise
    one of the operands, not below either. *)
Lemma mathMax_spec (a b : float) :
  PrimFloat.is_nan a = false ->
  (PrimFloat.is_nan b = true -> PrimFloat.is_nan (mathMax a b) = true)
  /\ (PrimFloat.is_nan b = false ->
      PrimFloat.leb a (mathMax a b) = true /\ PrimFloat.leb b (mathMax a b) = true
      /\ (mathMax a b = a \/ mathMax a b = b)).
Proof.
  intros Ha. unfold mathMax. rewrite Ha. split; intros Hb; rewrite Hb; simpl.
  - reflexivity.
  - destruct (PrimFloat.ltb a b) eqn:Hab.
    { repeat split; [now apply ltb_leb|now apply leb_refl_number|now right]. }
    destruct (PrimFloat.ltb b a) eqn:Hba.
    { repeat split; [now apply leb_refl_number|now apply ltb_leb|now left]. }
    pose proof (float_trichotomy a b Ha Hb Hab Hba) as He.
    assert (He' : PrimFloat.eqb b a = true) by now rewrite eqb_sym.
    destruct (PrimFloat.classify a);
      repeat split;
      first [now apply leb_refl_number | now apply eqb_leb | now left | now right].
Qed.

Lemma setIndex_spec (arr : widthArray) (i : nat) (v : float) :
  setIndex arr i v !! i = Some (Some v)
  /\ (forall k, k <> i -> (k < length arr)%nat -> setIndex arr i v !! k = arr !! k)
  /\ length (setIndex arr i v) = Nat.max (length arr) (S i).
Proof.
  unfold setIndex, widthArray in *. destruct (i <? length arr)%nat eqn:Hi.
  - apply Nat.ltb_lt in Hi. split; [now apply list_lookup_insert_eq|]. split.
    + intros k Hk _. now apply list_lookup_insert_ne.
    + rewrite length_insert. lia.
  - apply Nat.ltb_ge in Hi. split; [|split].
    + rewrite lookup_app_r by lia. rewrite lookup_app_r by (rewrite length_replicate; lia).
      rewrite length_replicate.
      now replace (i - length arr - (i - length arr))%nat with 0%nat by lia.
    + intros k _ Hk. now rewrite lookup_app_l.
    + rewrite !length_app, length_replicate. simpl. lia.
Qed.

(** X12.  While a column is being resized, a move of the pointer sets the
    width of that column to the start width plus the distance moved, and to 50
    when that is less: the new width is never below 50.  The widths at the
    other indices stay as they are, and the array grows only to hold the
    resized index. *)
Theorem resized_column_width (refs : resizeRefs) (clientX : float) (prev : widthArray)
    (idx : nat) :
  resizingCol refs = Some idx ->
  let target := PrimFloat.add (startWidth refs) (PrimFloat.sub clientX (startX refs)) in
  let next := handleResizerMouseMove refs clientX prev in
  (exists w, next !! idx = Some (Some w)
     /\ (PrimFloat.is_nan target = false ->
         PrimFloat.leb minColWidth w = true /\ PrimFloat.leb target w = true
         /\ (w = minColWidth \/ w = target))
     /\ (PrimFloat.is_nan target = true -> PrimFloat.is_nan w = true))
  /\ (forall k, k <> idx -> (k < length prev)%nat -> next !! k = prev !! k)
  /\ length next = Nat.max (length prev) (S idx).
Proof.
  intros Hcol. cbv zeta. unfold handleResizerMouseMove. rewrite Hcol.
  set (target := PrimFloat.add (startWidth refs) (PrimFloat.sub clientX (startX refs))).
  destruct (setIndex_spec prev idx (mathMax minColWidth target)) as (H1 & H2 & H3).
  split; [|split; assumption].
  exists (mathMax minColWidth target). split; [exact H1|].
  destruct (mathMax_spec minColWidth target eq_refl) as [Hnan Hnum]. split; assumption.
Qed.

(** * The header lines *)

Lemma string_append_assoc (a b c : string) : ((a ++ b) ++ c = a ++ (b ++ c))%string.
Proof.
  induction a as [|x a IH]; [reflexivity|].
  change (String x ((a ++ b) ++ c) = String x (a ++ (b ++ c)))%string. f_equal. exact IH.
Qed.

Lemma splitSpaces_cons (text : string) : exists w ws, splitSpaces text = w :: ws.
Proof.
  destruct text as [|c r]; simpl; [eauto|].
  destruct (Ascii.eqb c " "); [eauto|]. destruct (splitSpaces r); eauto.
Qed.

Lemma joinSpaces_cons (a : string) (t : list string) :
  t <> [] -> joinSpaces (a :: t) = (a ++ " " ++ joinSpaces t)%string.
Proof. destruct t; [congruence|reflexivity]. Qed.

(** [text.split(' ').join(' ')] is [text]. *)
Lemma joinSpaces_splitSpaces (text : string) : joinSpaces (splitSpaces text) = text.
Proof.
  induction text as [|c r IH]; [reflexivity|]. cbn [splitSpaces].
  destruct (splitSpaces_cons r) as (w & ws & E). rewrite E in *.
  destruct (Ascii.eqb c " ") eqn:Hc.
  - apply Ascii.eqb_eq in Hc as ->. rewrite joinSpaces_cons by discriminate.
    rewrite IH. reflexivity.
  - rewrite <- IH. destruct ws as [|w' ws]; [reflexivity|].
    rewrite !(joinSpaces_cons _ (w' :: ws)) by discriminate. reflexivity.
Qed.

Lemma joinSpaces_merge (l : list string) (x y : string) (r : list string) :
  joinSpaces (l ++ (x ++ " " ++ y)%string :: r) = joinSpaces (l ++ x :: y :: r).
Proof.
  induction l as [|a l IH].
  - cbn [app]. rewrite (joinSpaces_cons x) by discriminate.
    destruct r as [|b r]; [reflexivity|].
    rewrite !(joinSpaces_cons _ (b :: r)) by discriminate.
    now rewrite !string_append_assoc.
  - cbn [app]. rewrite !joinSpaces_cons by (now destruct l). now rewrite IH.
Qed.

Lemma nonEmpty_true (s : string) : nonEmpty s = true <-> s <> "".
Proof.
  unfold nonEmpty. rewrite negb_true_iff. split.
  - intros H ->. discriminate.
  - intros H. now apply String.eqb_neq.
Qed.

Lemma nonEmpty_false (s : string) : nonEmpty s = false <-> s = "".
Proof.
  unfold nonEmpty. rewrite negb_false_iff. apply String.eqb_eq.
Qed.

Lemma append_nonEmpty (a b : string) : a <> "" -> (a ++ b)%string <> "".
Proof. destruct a; [congruence|discriminate]. Qed.

(** The lines in the making: [lines], then [line] when it is not empty. *)
Lemma wrap_fold_join (measureTextWidth : string -> string -> float) (maxWidth : float)
    (font : string) (words : list string)
    (st : list string * string) :
  (forall w, In w words -> w <> "") -> (st.2 = "" -> st.1 = []) ->
  let st' := fold_left (wrapStep measureTextWidth maxWidth font) words st in
  joinSpaces (if nonEmpty st'.2 then st'.1 ++ [st'.2] else st'.1)
  = joinSpaces ((if nonEmpty st.2 then st.1 ++ [st.2] else st.1) ++ words).
Proof.
  revert st. induction words as [|w words IH]; intros [lines line] Hw Hst; cbn [fold_left].
  - cbv zeta. now rewrite app_nil_r.
  - cbv zeta in *. cbn [fst snd] in *.
    assert (Hne : w <> "") by (apply Hw; now left).
    assert (Hrest : forall w', In w' words -> w' <> "") by (intros w' Hw'; apply Hw; now right).
    assert (Hstep :
      ((wrapStep measureTextWidth maxWidth font (lines, line) w).2 = "" ->
       (wrapStep measureTextWidth maxWidth font (lines, line) w).1 = [])
      /\ joinSpaces ((if nonEmpty (wrapStep measureTextWidth maxWidth font (lines, line) w).2
                      then (wrapStep measureTextWidth maxWidth font (lines, line) w).1
                             ++ [(wrapStep measureTextWidth maxWidth font (lines, line) w).2]
                      else (wrapStep measureTextWidth maxWidth font (lines, line) w).1) ++ words)
         = joinSpaces ((if nonEmpty line then lines ++ [line] else lines) ++ w :: words)).
    { unfold wrapStep. cbn [fst snd]. destruct (nonEmpty line) eqn:Hline.
      - apply nonEmpty_true in Hline.
        destruct (jsLt _ _ && true); cbn [fst snd].
        + split; [congruence|]. rewrite (proj2 (nonEmpty_true w) Hne).
          now rewrite <- !app_assoc.
        + split; [intros E; now apply append_nonEmpty in E|].
          rewrite (proj2 (nonEmpty_true _) (append_nonEmpty line (" " ++ w) Hline)).
          rewrite <- !app_assoc. cbn [app]. apply joinSpaces_merge.
      - apply nonEmpty_false in Hline. subst line. rewrite (Hst eq_refl), andb_false_r.
        cbn [fst snd]. split; [congruence|]. now rewrite (proj2 (nonEmpty_true w) Hne). }
    destruct Hstep as [H1 H2]. rewrite <- H2. apply IH; assumption.
Qed.

(** X13.  Wrapping keeps the header text: for a text without a space at its
    start or end and without two spaces in a row, the lines joined by single
    spaces are the text, whatever the width and the measure of the font. *)
Theorem wrapHeaderText_keeps_text (measureTextWidth : string -> string -> float)
    (text : string) (maxWidth : float) (font : string) :
  (forall w, In w (splitSpaces text) -> w <> "") ->
  joinSpaces (wrapHeaderText measureTextWidth text maxWidth font) = text.
Proof.
  intros Hw. unfold wrapHeaderText. cbv zeta.
  pose proof (wrap_fold_join measureTextWidth maxWidth font (splitSpaces text)
                ([], EmptyString) Hw
                (fun _ => eq_refl)) as H.
  cbv zeta in H. rewrite H. cbn [fst snd nonEmpty String.eqb negb app].
  apply joinSpaces_splitSpaces.
Qed.

Lemma wrap_fold_lines (measureTextWidth : string -> string -> float) (maxWidth : float)
    (font : string) (Q : string -> Prop)
    (words : list string) (st : list string * string) :
  (forall l, l <> "" -> (In l words \/
      jsLt (PrimFloat.sub maxWidth 8%float) (measureTextWidth l font) = false) -> Q l) ->
  Forall Q st.1 -> (st.2 = "" \/ Q st.2) ->
  let st' := fold_left (wrapStep measureTextWidth maxWidth font) words st in
  Forall Q st'.1 /\ (st'.2 = "" \/ Q st'.2).
Proof.
  revert st. induction words as [|w words IH]; intros [lines line] HQ Hl Hc; cbn [fold_left].
  - cbv zeta. auto.
  - cbn [fst snd] in *.
    assert (HQ' : forall l, l <> "" -> (In l words \/
              jsLt (PrimFloat.sub maxWidth 8%float) (measureTextWidth l font) = false) -> Q l).
    { intros l Hne [Hin|Hfit]; apply HQ; auto. left. now right. }
    assert (Hword : w = "" \/ Q w).
    { destruct (string_dec w "") as [->|Hne]; [now left|right].
      apply HQ; [exact Hne|]. left. now left. }
    apply IH; [exact HQ'| |]; unfold wrapStep; cbn [fst snd];
      destruct (nonEmpty line) eqn:Hline;
      destruct (jsLt (PrimFloat.sub maxWidth 8%float) _) eqn:Hover;
      cbn [andb fst snd]; try exact Hl; try exact Hword.
    + apply Forall_app. split; [exact Hl|]. constructor; [|constructor].
      apply nonEmpty_true in Hline. destruct Hc as [Hc|Hc]; [congruence|exact Hc].
    + right. apply nonEmpty_true in Hline. apply HQ.
      * now apply append_nonEmpty.
      * now right.
Qed.

(** X14.  No line of a wrapped header is empty, and a line is wider than the
    column allows ([maxWidth - 8]) only when it is a single word of the
    text. *)
Theorem wrapHeaderText_lines_fit (measureTextWidth : string -> string -> float)
    (text : string) (maxWidth : float) (font : string) :
  Forall (fun l => l <> ""
                   /\ (In l (splitSpaces text)
                       \/ jsLt (PrimFloat.sub maxWidth 8%float) (measureTextWidth l font) = false))
    (wrapHeaderText measureTextWidth text maxWidth font).
Proof.
  unfold wrapHeaderText. cbv zeta.
  destruct (wrap_fold_lines measureTextWidth maxWidth font
              (fun l => l <> ""
                 /\ (In l (splitSpaces text)
                     \/ jsLt (PrimFloat.sub maxWidth 8%float) (measureTextWidth l font) = false))
              (splitSpaces text) ([], EmptyString)) as [H1 H2].
  - intros l Hne H. split; assumption.
  - constructor.
  - now left.
  - cbv zeta in *. destruct (nonEmpty _) eqn:Hline; [|exact H1].
    apply Forall_app. split; [exact H1|]. constructor; [|constructor].
    apply nonEmpty_true in Hline. destruct H2 as [H2|H2]; [congruence|exact H2].
Qed.


(** * The upload *)

(** For the characters of the two extensions, the pattern's comparison is
    equality of the small letters. *)
Lemma extension_char (a b : ascii) :
  In a ["."; "x"; "l"; "s"]%char ->
  (Ascii.eqb (canonicalize a) (canonicalize b) = true <-> lowerChar b = a).
Proof.
  intros Ha. simpl in Ha.
  destruct Ha as [<-|[<-|[<-|[<-|[]]]]];
    destruct b as [[] [] [] [] [] [] [] []]; vm_compute;
    split; intros H; first [reflexivity | discriminate H].
Qed.

Lemma stripLiteral_whole (lit s : string) :
  (forall a, In a (charsOf lit) -> In a ["."; "x"; "l"; "s"]%char) ->
  (stripLiteral lit s = Some EmptyString <-> toLowerCase s = lit).
Proof.
  revert s. induction lit as [|a lit IH]; intros s Hlit.
  - destruct s; simpl; split; intros H; try reflexivity; discriminate H.
  - destruct s as [|b s]; [simpl; split; discriminate|].
    cbn [stripLiteral toLowerCase].
    pose proof (extension_char a b (Hlit a (or_introl eq_refl))) as Hab.
    specialize (IH s (fun c Hc => Hlit c (or_intror Hc))).
    destruct (Ascii.eqb (canonicalize a) (canonicalize b)).
    + rewrite IH. split.
      * intros <-. f_equal. now apply Hab.
      * intros H. now injection H.
    + split; [discriminate|]. intros H. injection H as H _.
      apply Hab in H. discriminate H.
Qed.

Lemma extensionAt_spec (s : string) :
  extensionAt s = true <-> toLowerCase s = ".xlsx" \/ toLowerCase s = ".xls".
Proof.
  assert (H1 : stripLiteral ".xlsx" s = Some EmptyString <-> toLowerCase s = ".xlsx").
  { apply stripLiteral_whole. intros a Ha; simpl in Ha |- *;
      repeat (destruct Ha as [Ha|Ha]; [subst a; auto 20|]); destruct Ha. }
  assert (H2 : stripLiteral ".xls" s = Some EmptyString <-> toLowerCase s = ".xls").
  { apply stripLiteral_whole. intros a Ha; simpl in Ha |- *;
      repeat (destruct Ha as [Ha|Ha]; [subst a; auto 20|]); destruct Ha. }
  unfold extensionAt. rewrite <- H1, <- H2.
  destruct (stripLiteral ".xlsx" s) as [[|c r]|];
    destruct (stripLiteral ".xls" s) as [[|c' r']|];
    (split; [intros H; first [discriminate H | auto]
            | intros [H|H]; first [discriminate H | reflexivity]]).
Qed.

(** X15.  A file name passes the check of the upload exactly when it ends with
    .xlsx or .xls, in any capitalisation. *)
Theorem excel_name_accepted (name : string) :
  matchesExcelName name = true
  <-> endsWithIgnoringCase name ".xlsx" \/ endsWithIgnoringCase name ".xls".
Proof.
  assert (H : matchesExcelName name = true
              <-> exists stem e, name = (stem ++ e)%string /\ extensionAt e = true).
  { induction name as [|c r IH]; cbn [matchesExcelName]; rewrite orb_true_iff.
    - split.
      + intros [H|H]; [|discriminate]. now exists EmptyString, EmptyString.
      + intros (stem & e & Hname & He). left.
        destruct stem; [|discriminate]. change (EmptyString = e) in Hname. now subst e.
    - rewrite IH. split.
      + intros [H|(stem & e & -> & He)].
        * now exists EmptyString, (String c r).
        * now exists (String c stem), e.
      + intros ([|c' stem] & e & Hname & He).
        * left. change (String c r = e) in Hname. now subst e.
        * right. change (String c r = String c' (stem ++ e)) in Hname.
          injection Hname as -> ->. now exists stem, e. }
  rewrite H. unfold endsWithIgnoringCase. split.
  - intros (stem & e & -> & He). apply extensionAt_spec in He as [He|He]; [left|right];
      now exists stem, e.
  - intros [(stem & e & -> & He)|(stem & e & -> & He)]; exists stem, e;
      (split; [reflexivity|]); apply extensionAt_spec; auto.
Qed.


Lemma geneDataOf_cons_iff (comps pcols : list string) (ccol : option string)
    (rawData : list Row) :
  geneDataOf comps pcols ccol rawData <> [] <-> Exists (fun r => rowSkipped r = false) rawData.
Proof.
  unfold geneDataOf. induction rawData as [|r rows IH]; simpl.
  - split; [congruence|]. intros H. inversion H.
  - pose proof (geneOfRow_None comps pcols ccol r) as Hr.
    destruct (geneOfRow comps pcols ccol r) as [g|].
    + split; [|discriminate]. intros _. left.
      destruct (rowSkipped r); [|reflexivity]. destruct Hr as [_ Hr]. discriminate Hr. reflexivity.
    + rewrite IH. split; [now right|]. intros H.
      inversion H as [? ? Hs|]; subst; [|assumption].
      rewrite (proj1 Hr eq_refl) in Hs. discriminate.
Qed.

(** The pipeline hands over a dataset exactly when the first row has a
    fold-change header and some row has an identifier. *)
Lemma processExcelFile_succeeds (rawData : list Row) :
  (exists d, processExcelFile rawData = inr d)
  <-> comparisonsOf (headersOf rawData) <> []
      /\ Exists (fun r => rowSkipped r = false) rawData.
Proof.
  destruct (comparisonsOf (headersOf rawData)) as [|c cs] eqn:Hc.
  - split; [|intros [H _]; congruence]. intros [d Hd]. exfalso.
    unfold processExcelFile in Hd. rewrite Hc in Hd. simpl in Hd.
    repeat match type of Hd with
           | (if ?b then _ else _) = _ => destruct b; [discriminate Hd|]
           end.
    discriminate Hd.
  - assert (Hne : comparisonsOf (headersOf rawData) <> []) by (rewrite Hc; discriminate).
    rewrite (processExcelFile_validated _ Hne). cbv zeta. rewrite Hc.
    rewrite <- (geneDataOf_cons_iff (c :: cs) (pValueColumnsOf (headersOf rawData))
                  (categoryColOf (headersOf rawData)) rawData).
    destruct (geneDataOf _ _ _ rawData) as [|g gs].
    + split; [intros [d Hd]; discriminate Hd|]. intros [_ H]. congruence.
    + split; [intros _; split; discriminate|]. intros _. eauto.
Qed.

(** X16.  An upload ends without an error exactly when a file is selected
    whose name passes the check, whose size is at most 10 MiB, and whose
    first sheet decodes to a table with a fold-change header in its first row
    and an identifier in some row; the dataset of that table is then displayed.
    Any other upload leaves the displayed dataset as it was.  Once a file is
    selected the component is no longer loading, and remembers the file. *)
Theorem upload_outcome (st : appState) (selectedFile : option fileInfo) :
  (error (handleFileUpload st selectedFile) = None <->
     exists f rawData d,
       selectedFile = Some f
       /\ matchesExcelName (fileName f) = true
       /\ fileSize f <= 10485760
       /\ fileRows f = Some rawData
       /\ comparisonsOf (headersOf rawData) <> []
       /\ Exists (fun r => rowSkipped r = false) rawData
       /\ processExcelFile rawData = inr d
       /\ data (handleFileUpload st selectedFile) = Some d)
  /\ (error (handleFileUpload st selectedFile) <> None ->
      data (handleFileUpload st selectedFile) = data st)
  /\ (selectedFile <> None ->
      loading (handleFileUpload st selectedFile) = false
      /\ file (handleFileUpload st selectedFile) = selectedFile).
Proof.
  destruct selectedFile as [f|]; cbn [handleFileUpload].
  2:{ cbn [error data]. split; [split|split].
      - intros H. discriminate H.
      - intros (f & r & d' & H & _). discriminate H.
      - reflexivity.
      - intros H. congruence. }
  destruct (matchesExcelName (fileName f)) eqn:Hm; cbn [negb].
  2:{ cbn [error data loading file]. split; [split|split; [|split]]; try reflexivity.
      - intros H. discriminate H.
      - intros (f' & r & d' & H & Hn & _). injection H as <-. congruence. }
  destruct (10 * 1024 * 1024 <? fileSize f) eqn:Hsize.
  { apply Z.ltb_lt in Hsize. cbn [error data loading file].
    split; [split|split; [|split]]; try reflexivity.
    - intros H. discriminate H.
    - intros (f' & r & d' & H & _ & Hs & _). injection H as <-. lia. }
  apply Z.ltb_ge in Hsize.
  destruct (fileRows f) as [rawData|] eqn:Hrows.
  2:{ cbn [error data loading file]. split; [split|split; [|split]]; try reflexivity.
      - intros H. discriminate H.
      - intros (f' & r & d' & H & _ & _ & Hr & _). injection H as <-. congruence. }
  pose proof (processExcelFile_succeeds rawData) as Hok.
  destruct (processExcelFile rawData) as [e|d] eqn:Hp; cbn [error data loading file].
  - split; [split|split; [|split]]; try reflexivity.
    + intros H. discriminate H.
    + intros (f' & r & d' & H & _ & _ & Hr & Hc & Hex & _). injection H as <-.
      rewrite Hrows in Hr. injection Hr as <-.
      destruct (proj2 Hok (conj Hc Hex)) as [d Hd]. discriminate Hd.
  - split; [split|split; [|split]]; try reflexivity.
    + intros _. exists f, rawData, d.
      destruct (proj1 Hok (ex_intro _ d eq_refl)) as [Hc Hex].
      split; [reflexivity|]. split; [exact Hm|]. split; [lia|].
      split; [exact Hrows|]. split; [exact Hc|]. split; [exact Hex|]. split; [exact Hp|reflexivity].
    + intros H. congruence.
Qed.


(** * One block a category *)

Lemma strictEq_string (c c' : cell) :
  (exists s, c = CStr s) ->
  (strictEq c' c = true <-> c' = c) /\ (sameValueZero c' c = true <-> c' = c).
Proof.
  intros [s ->]. destruct c' as [n|t]; simpl.
  - split; split; discriminate.
  - rewrite String.eqb_eq. split; split; congruence.
Qed.

Lemma strictEq_string_refl (c : cell) : (exists s, c = CStr s) -> strictEq c c = true.
Proof. intros H. now apply (strictEq_string c c H). Qed.

Lemma strictEq_string_neq (c c' : cell) :
  (exists s, c = CStr s) -> c' <> c -> strictEq c' c = false /\ sameValueZero c' c = false.
Proof.
  intros H Hne. destruct (strictEq_string c c' H) as [H1 H2].
  split; apply not_true_is_false; intros E; [apply H1 in E|apply H2 in E]; contradiction.
Qed.

Lemma blocked_cons (blk : cell -> list gene) (c : cell) (cs : list cell) :
  blocked blk (c :: cs) ->
  blocked blk cs /\ ~ In c cs /\ (exists s, c = CStr s)
  /\ (exists g b, blk c = g :: b /\ forall g', In g' (g :: b) -> category g' = c).
Proof.
  intros [Hnd H]. inversion Hnd as [|? ? Hnot Hnd']; subst.
  destruct (H c (or_introl eq_refl)) as (Hs & Hne & Hcat).
  split; [split; [exact Hnd'|intros c' Hc'; apply H; now right]|].
  split; [exact Hnot|]. split; [exact Hs|].
  destruct (blk c) as [|g b]; [congruence|]. eauto.
Qed.

Lemma blocked_In (blk : cell -> list gene) (cs : list cell) (g : gene) :
  blocked blk cs -> In g (concat (map blk cs)) -> In (category g) cs.
Proof.
  intros [_ H] Hg. apply in_concat in Hg as (b & Hb & Hg).
  apply in_map_iff in Hb as (c & <- & Hc).
  destruct (H c Hc) as (_ & _ & Hcat). now rewrite (Hcat g Hg).
Qed.

Lemma groupsFrom_same (l rest : list gene) (c : cell) (start index : Z) :
  strictEq c c = true -> (forall g, In g l -> category g = c) ->
  groupsFrom (Some c) start index (l ++ rest)
  = groupsFrom (Some c) start (index + Z.of_nat (length l)) rest.
Proof.
  intros Hc. revert index. induction l as [|g l IH]; intros index Hl.
  - simpl. now rewrite Z.add_0_r.
  - cbn [app groupsFrom differsFrom]. rewrite (Hl g (or_introl eq_refl)), Hc. cbn [negb].
    rewrite IH by (intros g' Hg'; apply Hl; now right).
    f_equal. cbn [length]. lia.
Qed.

Lemma groupsFrom_blocks (blk : cell -> list gene) (cs : list cell) (c0 : cell)
    (start index : Z) :
  blocked blk cs -> ~ In c0 cs ->
  groupsFrom (Some c0) start index (concat (map blk cs))
  = mkGroup c0 start (index - 1) (index - start)
      :: groupsOfBlocks index (map (fun c => (c, length (blk c))) cs).
Proof.
  revert c0 start index. induction cs as [|c cs IH]; intros c0 start index Hb Hc0.
  - reflexivity.
  - destruct (blocked_cons _ _ _ Hb) as (Hb' & Hnot & Hs & g & b & Hblk & Hcat).
    cbn [map concat groupsOfBlocks]. rewrite Hblk.
    cbn [app groupsFrom differsFrom]. rewrite (Hcat g (or_introl eq_refl)).
    assert (Hne : c0 <> c) by (intros ->; apply Hc0; now left).
    rewrite strictEq_sym, (proj1 (strictEq_string_neq c c0 Hs Hne)). cbn [negb closeGroup app].
    f_equal.
    rewrite groupsFrom_same;
      [|now apply strictEq_string_refl|intros g' Hg'; apply Hcat; now right].
    rewrite (IH c index (index + 1 + Z.of_nat (length b)) Hb' Hnot).
    cbn [length].
    replace (index + 1 + Z.of_nat (length b)) with (index + Z.of_nat (S (length b))) by lia.
    f_equal. f_equal; lia.
Qed.

Lemma categoryGroupsOf_blocks (blk : cell -> list gene) (cs : list cell) :
  blocked blk cs ->
  categoryGroupsOf (concat (map blk cs))
  = groupsOfBlocks 0 (map (fun c => (c, length (blk c))) cs).
Proof.
  intros Hb. rewrite categoryGroupsOf_groupsFrom. destruct cs as [|c cs]; [reflexivity|].
  destruct (blocked_cons _ _ _ Hb) as (Hb' & Hnot & Hs & g & b & Hblk & Hcat).
  cbn [map concat groupsOfBlocks]. rewrite Hblk.
  cbn [app groupsFrom differsFrom closeGroup]. rewrite (Hcat g (or_introl eq_refl)).
  rewrite groupsFrom_same;
    [|now apply strictEq_string_refl|intros g' Hg'; apply Hcat; now right].
  rewrite (groupsFrom_blocks blk cs c 0 (0 + 1 + Z.of_nat (length b)) Hb' Hnot).
  cbn [length].
  replace (0 + 1 + Z.of_nat (length b)) with (0 + Z.of_nat (S (length b))) by lia.
  f_equal; try (f_equal; lia).
Qed.

Lemma filter_all {A : Type} (f : A -> bool) (l : list A) :
  (forall x, In x l -> f x = true) -> List.filter f l = l.
Proof.
  induction l as [|a l IH]; intros H; simpl; [reflexivity|].
  rewrite (H a (or_introl eq_refl)). f_equal. apply IH. intros x Hx. apply H. now right.
Qed.

Lemma genesInCategory_blocks (blk : cell -> list gene) (cs : list cell) (c : cell) :
  blocked blk cs -> In c cs -> genesInCategory (concat (map blk cs)) c = blk c.
Proof.
  unfold genesInCategory. induction cs as [|c0 cs IH]; intros Hb Hc; [destruct Hc|].
  destruct (blocked_cons _ _ _ Hb) as (Hb' & Hnot & Hs & g & b & Hblk & Hcat).
  rewrite <- Hblk in Hcat. cbn [map concat]. rewrite List.filter_app.
  destruct Hc as [->|Hc].
  - rewrite filter_all
      by (intros g' Hg'; rewrite (Hcat g' Hg'); now apply strictEq_string_refl).
    assert (E : List.filter (fun g0 => strictEq (category g0) c) (concat (map blk cs)) = []).
    { apply filter_nil_iff. intros g' Hg'. apply (strictEq_string_neq c _ Hs).
      intros E. apply Hnot. rewrite <- E. now apply (blocked_In blk). }
    rewrite E. apply app_nil_r.
  - assert (E : List.filter (fun g0 => strictEq (category g0) c) (blk c0) = []).
    { apply filter_nil_iff. intros g' Hg'. rewrite (Hcat g' Hg').
      destruct Hb' as [_ Hall]. destruct (Hall c Hc) as (Hsc & _).
      apply (strictEq_string_neq c c0 Hsc). intros ->. contradiction. }
    rewrite E. cbn [app]. now apply IH.
Qed.

Lemma findIndex_app_none {A : Type} (P : A -> bool) (l1 l2 : list A) :
  (forall y, In y l1 -> P y = false) ->
  findIndex P (l1 ++ l2) = option_map (Nat.add (length l1)) (findIndex P l2).
Proof.
  induction l1 as [|a l1 IH]; intros H; cbn [app findIndex length].
  - now destruct (findIndex P l2).
  - rewrite (H a (or_introl eq_refl)), IH by (intros y Hy; apply H; now right).
    now destruct (findIndex P l2).
Qed.

Lemma blocks_box (blk : cell -> list gene) (cs : list cell) (prefix : list gene) (c : cell) :
  blocked blk cs -> (forall g, In g prefix -> ~ In (category g) cs) -> In c cs ->
  exists grp,
    In grp (groupsOfBlocks (Z.of_nat (length prefix)) (map (fun c => (c, length (blk c))) cs))
    /\ groupCategory grp = c
    /\ findIndex (fun g => strictEq (category g) c) (prefix ++ concat (map blk cs))
       = Some (Z.to_nat (startIndex grp))
    /\ count grp = Z.of_nat (length (blk c)).
Proof.
  revert prefix. induction cs as [|c0 cs IH]; intros prefix Hb Hpre Hc; [destruct Hc|].
  destruct (blocked_cons _ _ _ Hb) as (Hb' & Hnot & Hs & g & b & Hblk & Hcat).
  cbn [map concat groupsOfBlocks].
  destruct Hc as [->|Hc].
  - eexists. split; [now left|]. cbn [groupCategory startIndex count].
    split; [reflexivity|]. split; [|reflexivity].
    rewrite findIndex_app_none.
    + rewrite Hblk. cbn [app findIndex]. rewrite (Hcat g (or_introl eq_refl)).
      rewrite (strictEq_string_refl c Hs). simpl. f_equal. lia.
    + intros y Hy. apply (strictEq_string_neq c _ Hs). intros E.
      apply (Hpre y Hy). rewrite E. now left.
  - destruct (IH (prefix ++ blk c0) Hb') as (grp & Hin & Hcatg & Hfind & Hcount).
    + intros y Hy Hin. apply in_app_or in Hy as [Hy|Hy].
      * apply (Hpre y Hy). now right.
      * rewrite Hblk in Hy. rewrite (Hcat y Hy) in Hin. contradiction.
    + exact Hc.
    + exists grp. rewrite length_app, Nat2Z.inj_add in Hin.
      split; [now right|]. split; [exact Hcatg|]. split; [|exact Hcount].
      now rewrite app_assoc.
Qed.

Lemma fold_addToSet_known (l : list cell) (acc : list cell) :
  (forall c, In c l -> existsb (sameValueZero c) acc = true) ->
  fold_left addToSet l acc = acc.
Proof.
  induction l as [|c l IH]; intros H; simpl; [reflexivity|].
  unfold addToSet at 2. rewrite (H c (or_introl eq_refl)).
  apply IH. intros c' Hc'. apply H. now right.
Qed.

Lemma setOf_blocks (blk : cell -> list gene) (cs acc : list cell) :
  blocked blk cs -> (forall c, In c cs -> ~ In c acc) ->
  fold_left addToSet (map category (concat (map blk cs))) acc = acc ++ cs.
Proof.
  revert acc. induction cs as [|c cs IH]; intros acc Hb Hacc.
  - simpl. now rewrite app_nil_r.
  - destruct (blocked_cons _ _ _ Hb) as (Hb' & Hnot & Hs & g & b & Hblk & Hcat).
    cbn [map concat]. rewrite Hblk, map_app, fold_left_app. cbn [map fold_left].
    rewrite (Hcat g (or_introl eq_refl)).
    assert (Hnew : existsb (sameValueZero c) acc = false).
    { apply not_true_is_false. intros E. apply existsb_exists in E as (a & Ha & E).
      rewrite sameValueZero_sym in E. apply (proj2 (strictEq_string c a Hs)) in E. subst a.
      now apply (Hacc c (or_introl eq_refl)). }
    unfold addToSet at 3. rewrite Hnew.
    rewrite (fold_addToSet_known (map category b)).
    + rewrite IH; [now rewrite <- app_assoc|exact Hb'|].
      intros c' Hc' Hin. apply in_app_or in Hin as [Hin|[<-|[]]].
      * apply (Hacc c' (or_intror Hc') Hin).
      * contradiction.
    + intros c' Hc'. apply in_map_iff in Hc' as (g' & <- & Hg').
      rewrite (Hcat g' (or_intror Hg')). apply existsb_exists.
      exists c. split; [apply in_or_app; right; now left|apply sameValueZero_refl].
Qed.

Lemma distinctCells_NoDup (l : list cell) : distinctCells l -> List.NoDup l.
Proof.
  induction l as [|a l IH]; simpl; [constructor|]. intros [Hall Hd].
  constructor; [|now apply IH]. intros Hin.
  rewrite List.Forall_forall in Hall. specialize (Hall a Hin).
  rewrite sameValueZero_refl in Hall. discriminate.
Qed.

(** With string categories the genes of a dataset come in blocks, one for every
    element of [categories]. *)
Lemma dataset_blocked (rawData : list Row) (data : dataset) :
  processExcelFile rawData = inr data -> stringCategories rawData ->
  exists blk,
    blocked blk (categories data)
    /\ genes data = concat (map blk (categories data))
    /\ categoryGroups data = categoryGroupsOf (genes data).
Proof.
  intros H Hstr.
  set (geneData := geneDataOf (comparisonsOf (headersOf rawData))
                     (pValueColumnsOf (headersOf rawData))
                     (categoryColOf (headersOf rawData)) rawData).
  assert (Hs : forall g, In g geneData -> exists s, category g = CStr s)
    by (apply geneDataOf_string_categories; exact Hstr).
  pose proof (string_categories_keysSeparate geneData Hs) as Hkeys.
  destruct (cats_spec geneData Hkeys) as (Hd & Hin & _).
  set (blk := fun c => arraySort byFirstValue (genesInCategory geneData c)).
  assert (Hb : blocked blk (setOf (map category geneData))).
  { split; [now apply distinctCells_NoDup|]. intros c Hc.
    destruct (Hin c Hc) as (g0 & Hg0 & Hc0). destruct (Hs g0 Hg0) as [s Hstring].
    assert (Hcs : exists s, c = CStr s) by (exists s; congruence).
    split; [exact Hcs|]. split.
    - pose proof (genesInCategory_nonempty geneData Hkeys c Hc) as Hne.
      pose proof (Permutation_length (arraySort_perm byFirstValue (genesInCategory geneData c)))
        as Hlen.
      unfold blk. intros E. rewrite E in Hlen. simpl in Hlen. rewrite Hlen in Hne.
      discriminate Hne.
    - intros g Hg. unfold blk in Hg.
      apply (Permutation_in _ (Permutation_sym (arraySort_perm byFirstValue _))) in Hg.
      apply filter_In in Hg as [_ Hg]. now apply (proj1 (strictEq_string c (category g) Hcs)). }
  assert (E : genes data = sortedGeneDataOf geneData
              /\ categories data = setOf (map category (sortedGeneDataOf geneData))
              /\ categoryGroups data = categoryGroupsOf (genes data)).
  { unfold processExcelFile in H.
    repeat match type of H with
           | (if ?b then _ else _) = _ => destruct b; [discriminate H|]
           end.
    injection H as <-. repeat split. }
  destruct E as (Eg & Ec & Egr).
  rewrite (sortedGeneDataOf_concat geneData Hkeys) in Eg, Ec. fold blk in Eg, Ec.
  unfold setOf in Ec at 1. rewrite (setOf_blocks blk _ [] Hb) in Ec by (intros c _ []).
  cbn [app] in Ec.
  exists blk. rewrite Ec. split; [exact Hb|]. split; [exact Eg|exact Egr].
Qed.

(** X17.  When the category cells of the table are strings, the category
    groups are one group for every category, in the order of [categories], and
    the group of a category counts all the genes of the category: no category
    is split over two groups. *)
Theorem one_group_per_category (rawData : list Row) (data : dataset) :
  processExcelFile rawData = inr data -> stringCategories rawData ->
  categoryGroups data
  = groupsOfBlocks 0
      (map (fun c => (c, length (genesInCategory (genes data) c))) (categories data)).
Proof.
  intros H Hstr. destruct (dataset_blocked _ _ H Hstr) as (blk & Hb & Eg & Egr).
  rewrite Egr, Eg, (categoryGroupsOf_blocks blk _ Hb). f_equal.
  apply map_ext_in. intros c Hc. now rewrite (genesInCategory_blocks blk _ c Hb Hc).
Qed.

(** X18.  When the category cells of the table are strings, the label box the
    renderer draws for a category starts at the first row of the group of that
    category and covers as many rows as the group counts, and the colour of
    the box is found without an exception. *)
Theorem category_box_is_group (rawData : list Row) (data : dataset) (c : cell) :
  processExcelFile rawData = inr data -> stringCategories rawData ->
  In c (categories data) ->
  exists grp,
    In grp (categoryGroups data) /\ groupCategory grp = c
    /\ categoryBox (genes data) c = Some (Z.to_nat (startIndex grp), Z.to_nat (count grp))
    /\ getCategoryColor c <> None.
Proof.
  intros H Hstr Hc. destruct (dataset_blocked _ _ H Hstr) as (blk & Hb & Eg & Egr).
  destruct (blocks_box blk (categories data) [] c Hb (fun _ Hg => match Hg with end) Hc)
    as (grp & Hin & Hcat & Hfind & Hcount).
  cbn [app length] in Hin, Hfind. change (Z.of_nat 0) with 0 in Hin.
  exists grp. split; [|split; [exact Hcat|split]].
  - rewrite Egr, Eg, (categoryGroupsOf_blocks blk _ Hb). exact Hin.
  - unfold categoryBox. rewrite Eg, Hfind, (genesInCategory_blocks blk _ c Hb Hc), Hcount.
    now rewrite Nat2Z.id.
  - destruct Hb as [_ Hall]. destruct (Hall c Hc) as ([s ->] & _). discriminate.
Qed.


(** * The headers that are detected *)

(** For the characters of the markers, the pattern's comparison is equality
    of the small letters. *)
Lemma marker_char (a b : ascii) :
  In a markerChars ->
  (Ascii.eqb (canonicalize a) (canonicalize b) = true <-> lowerChar b = lowerChar a).
Proof.
  intros Ha. unfold markerChars in Ha. simpl in Ha.
  destruct Ha as [<-|[<-|[<-|[<-|[<-|[<-|[<-|[<-|[<-|[<-|[<-|[<-|[<-|[]]]]]]]]]]]]]];
    destruct b as [[] [] [] [] [] [] [] []]; vm_compute;
    split; intros H; first [reflexivity | discriminate H].
Qed.

Lemma stripLiteral_prefix (lit marker rest : string) :
  (forall a, In a (charsOf lit) -> In a markerChars) ->
  toLowerCase marker = toLowerCase lit ->
  stripLiteral lit (marker ++ rest) = Some rest.
Proof.
  revert marker. induction lit as [|a lit IH]; intros marker Hlit Hm.
  - destruct marker; [reflexivity|discriminate Hm].
  - destruct marker as [|b marker]; [discriminate Hm|].
    cbn [toLowerCase] in Hm. injection Hm as Hb Hm.
    change (String b marker ++ rest)%string with (String b (marker ++ rest)).
    cbn [stripLiteral].
    rewrite (proj2 (marker_char a b (Hlit a (or_introl eq_refl))) Hb).
    apply IH; [|exact Hm]. intros c Hc. apply Hlit. now right.
Qed.

Lemma stripLiteral_inv (lit h rest : string) :
  (forall a, In a (charsOf lit) -> In a markerChars) ->
  stripLiteral lit h = Some rest ->
  exists marker, h = (marker ++ rest)%string /\ toLowerCase marker = toLowerCase lit.
Proof.
  revert h. induction lit as [|a lit IH]; intros h Hlit H.
  - cbn [stripLiteral] in H. injection H as ->. now exists EmptyString.
  - destruct h as [|b h]; [discriminate H|]. cbn [stripLiteral] in H.
    destruct (Ascii.eqb (canonicalize a) (canonicalize b)) eqn:Hab; [|discriminate H].
    apply (marker_char a b (Hlit a (or_introl eq_refl))) in Hab.
    destruct (IH h (fun c Hc => Hlit c (or_intror Hc)) H) as (marker & -> & Hm).
    exists (String b marker). split; [reflexivity|].
    cbn [toLowerCase]. now rewrite Hab, Hm.
Qed.

Lemma trimStart_inv (rest body : string) :
  trimStart rest = String "(" body ->
  exists ws, rest = (ws ++ String "(" body)%string /\ allChars isWhiteSpace ws = true.
Proof.
  induction rest as [|c r IH]; cbn [trimStart]; [discriminate|].
  destruct (isWhiteSpace c) eqn:Hc.
  - intros H. destruct (IH H) as (ws & -> & Hws). exists (String c ws).
    split; [reflexivity|]. cbn [allChars]. now rewrite Hc, Hws.
  - intros ->. now exists EmptyString.
Qed.

Lemma captureToEnd_inv (body X : string) :
  captureToEnd body = Some X ->
  body = (X ++ ")")%string /\ X <> ""
  /\ allChars (fun c => negb (isLineTerminator c)) X = true.
Proof.
  revert X. induction body as [|c r IH]; intros X H; [discriminate H|].
  destruct r as [|d [|e r]].
  - discriminate H.
  - cbn [captureToEnd] in H.
    destruct (Ascii.eqb d ")") eqn:Hd; [|discriminate H].
    destruct (isLineTerminator c) eqn:Hc; [discriminate H|].
    cbn [andb negb] in H. injection H as <-. apply Ascii.eqb_eq in Hd as ->.
    split; [reflexivity|]. split; [discriminate|]. cbn [allChars]. now rewrite Hc.
  - rewrite captureToEnd_step in H.
    destruct (isLineTerminator c) eqn:Hc; [discriminate H|].
    destruct (captureToEnd (String d (String e r))) as [x|] eqn:Hx; [|discriminate H].
    injection H as <-. destruct (IH x eq_refl) as (E & _ & Hall).
    split; [|split; [discriminate|]].
    + change (String c x ++ ")")%string with (String c (x ++ ")")). now rewrite <- E.
    + cbn [allChars]. now rewrite Hc, Hall.
Qed.

(** What a marker pattern matches, and what it captures. *)
Lemma matchMarker_spec (lit h X : string) :
  (forall a, In a (charsOf lit) -> In a markerChars) ->
  (matchMarker lit h = Some X <->
   exists marker ws,
     h = (marker ++ ws ++ "(" ++ X ++ ")")%string
     /\ toLowerCase marker = toLowerCase lit
     /\ allChars isWhiteSpace ws = true
     /\ X <> ""
     /\ allChars (fun c => negb (isLineTerminator c)) X = true).
Proof.
  intros Hlit. unfold matchMarker. split.
  - destruct (stripLiteral lit h) as [rest|] eqn:Hs; [|discriminate].
    destruct (stripLiteral_inv _ _ _ Hlit Hs) as (marker & -> & Hm).
    destruct (trimStart rest) as [|p body] eqn:Ht; [discriminate|].
    destruct (Ascii.eqb p "(") eqn:Hp.
    + apply Ascii.eqb_eq in Hp as ->. intros Hc.
      destruct (trimStart_inv _ _ Ht) as (ws & -> & Hws).
      destruct (captureToEnd_inv _ _ Hc) as (-> & HX & Hall).
      exists marker, ws. repeat split; assumption.
    + intros Hc. exfalso. apply Ascii.eqb_neq in Hp. apply Hp.
      destruct p as [[] [] [] [] [] [] [] []]; first [reflexivity | discriminate Hc].
  - intros (marker & ws & -> & Hm & Hws & HX & Hall).
    rewrite (stripLiteral_prefix _ _ _ Hlit Hm).
    change (ws ++ "(" ++ X ++ ")")%string with (ws ++ String "(" (X ++ ")"))%string.
    rewrite (trimStart_whitespace _ _ Hws). now apply captureToEnd_name.
Qed.

(** X20.  The p-value columns are exactly the headers shaped "P value (X)":
    the words P value in any capitalisation, any white space, and a name
    between parentheses that is not empty and stays on one line.  They are
    kept in the order of the headers. *)
Theorem p_value_columns_are_shaped (headers : list string) (h : string) :
  (In h (pValueColumnsOf headers) <-> In h headers /\ exists X, pValueShaped h X)
  /\ sublist (pValueColumnsOf headers) headers.
Proof.
  split; [|apply filter_sublist].
  assert (Hlit : forall a, In a (charsOf "P value") -> In a markerChars).
  { unfold markerChars. intros a Ha; simpl in Ha |- *;
      repeat (destruct Ha as [Ha|Ha]; [subst a; auto 20|]); destruct Ha. }
  unfold pValueColumnsOf, test, pValuePattern. rewrite filter_In. split.
  - intros [Hin Hm]. split; [exact Hin|].
    destruct (matchMarker "P value" h) as [X|] eqn:E; [|discriminate Hm].
    exists X. now apply (matchMarker_spec "P value" h X Hlit).
  - intros [Hin [X HX]]. split; [exact Hin|].
    now rewrite (proj2 (matchMarker_spec "P value" h X Hlit) HX).
Qed.

(** X21.  Only headers shaped "Log2FC (X)" are comparison columns, and the
    display name of such a column is the name [X] without the white space
    around it. *)
Theorem comparison_columns_are_shaped (headers : list string) (h : string) :
  In h (comparisonsOf headers) ->
  In h headers /\ exists X, foldChangeShaped h X /\ shortName h = trim X.
Proof.
  assert (Hlit : forall a, In a (charsOf "Log2FC") -> In a markerChars).
  { unfold markerChars. intros a Ha; simpl in Ha |- *;
      repeat (destruct Ha as [Ha|Ha]; [subst a; auto 20|]); destruct Ha. }
  unfold comparisonsOf, test, shortName, comparisonPattern. rewrite filter_In.
  intros [Hin Hm]. split; [exact Hin|].
  destruct (matchMarker "Log2FC" h) as [X|] eqn:E; [|discriminate Hm].
  exists X. split; [|reflexivity]. now apply (matchMarker_spec "Log2FC" h X Hlit).
Qed.

(** * Where the genes come from *)

Lemma geneOfRow_fields (comps pcols : list string) (ccol : option string) (r : Row) (g : gene) :
  geneOfRow comps pcols ccol r = Some g ->
  geneIdOf r = Some (id g)
  /\ values g = map (fun h => numericOrNull (get r h)) comps
  /\ pValues g = map (fun h => numericOrNull (get r h)) pcols.
Proof.
  unfold geneOfRow, jsNot. destruct (geneIdOf r) as [c|]; [|discriminate].
  destruct (truthy c); [|discriminate]. simpl. intros H. injection H as <-. auto.
Qed.

(** X22.  Every gene of a dataset is read from a row of the table: its
    identifier is the trimmed identifier of that row, and its values and
    p-values are the cells of that row under the comparison columns and the
    p-value columns, an empty cell giving null.  Grouping and sorting add no
    gene and change none. *)
Theorem dataset_gene_provenance (rawData : list Row) (data : dataset) :
  processExcelFile rawData = inr data ->
  Forall (fun g => exists r,
            In r rawData /\ geneIdOf r = Some (id g)
            /\ values g = map (fun h => numericOrNull (get r h)) (comparisonColumns data)
            /\ pValues g = map (fun h => numericOrNull (get r h)) (pValueColumns data))
    (genes data).
Proof.
  intros H. apply List.Forall_forall. intros g Hg.
  destruct (dataset_gene_origin _ _ _ H Hg) as (r & Hr & Hgene).
  exists r. split; [exact Hr|]. now apply geneOfRow_fields in Hgene.
Qed.




(** * The colour scale *)

Section ColorScaleProperties.
Variable log2 : float -> float.
Variable interpolateReds : float -> string.
Variable interpolateBlues : float -> string.
Variable quantileBin : list (option float) -> nat -> float -> option nat.

(** A cell without a value has the neutral colour in every mode, and the call
    leaves the palette alone. *)
Lemma colorScale_no_value (colorScaleType : string) (data : option dataset)
    (palette : list string) :
  colorScale log2 interpolateReds interpolateBlues quantileBin colorScaleType data palette
    JNull = (Some "#f9f9f9", palette)
  /\ colorScale log2 interpolateReds interpolateBlues quantileBin colorScaleType data palette
       JUndefined = (Some "#f9f9f9", palette).
Proof. split; reflexivity. Qed.

(** Outside the quantile mode the colour of a value is the same whatever the
    dataset and the palette, and the call leaves the palette alone: only the
    quantile mode reads the dataset. *)
Lemma colorScale_reads_data_in_quantile_only (colorScaleType : string)
    (data data' : option dataset) (palette palette' : list string) (value : jsnum) :
  colorScaleType <> "quantile" ->
  (colorScale log2 interpolateReds interpolateBlues quantileBin colorScaleType data palette
     value).1
  = (colorScale log2 interpolateReds interpolateBlues quantileBin colorScaleType data' palette'
       value).1
  /\ (colorScale log2 interpolateReds interpolateBlues quantileBin colorScaleType data palette
        value).2 = palette.
Proof.
  intros Hmode. apply String.eqb_neq in Hmode. unfold colorScale.
  destruct value as [| |n]; [split; reflexivity..|].
  destruct (String.eqb colorScaleType "log"); [split; reflexivity|].
  rewrite Hmode. split; reflexivity.
Qed.

(** In the quantile mode the scale is built on all the values of the dataset
    and on the palette as [reverse()] leaves it, which is also the palette the
    next call finds. *)
Lemma colorScale_quantile (data : dataset) (palette : list string) (v : float) :
  colorScale log2 interpolateReds interpolateBlues quantileBin "quantile" (Some data) palette
    (JNumber v)
  = (scaleQuantile quantileBin (flat_map values (genes data)) (reverse palette) v,
     reverse palette).
Proof. reflexivity. Qed.

Lemma colorScale_quantile_bin (data : dataset) (palette : list string) (v : float) (b : nat) :
  quantileBin (flat_map values (genes data)) (length palette) v = Some b ->
  colorScale log2 interpolateReds interpolateBlues quantileBin "quantile" (Some data) palette
    (JNumber v)
  = (reverse palette !! b, reverse palette)
  /\ colorScale log2 interpolateReds interpolateBlues quantileBin "quantile" (Some data)
       (reverse palette) (JNumber v)
     = (palette !! b, palette).
Proof.
  intros Hbin. rewrite !colorScale_quantile. unfold scaleQuantile.
  rewrite reverse_involutive, length_reverse, Hbin. split; reflexivity.
Qed.

(** C9.  In the quantile mode the colour of a value is not fixed by its bin.
    [colorScale] reverses the shared palette in place at every call, so two
    calls in a row read it in opposite directions: for a palette without
    repetition and a value in a bin [b] that is not the middle one, the first
    call answers with the colour at [b] of the reversed palette, the next call
    on the same value and the same dataset with the colour at [b] of the
    palette itself, and the two colours differ. *)
Theorem quantile_colour_flips (data : dataset) (palette : list string) (v : float) (b : nat) :
  List.NoDup palette ->
  quantileBin (flat_map values (genes data)) (length palette) v = Some b ->
  (b < length palette)%nat -> (2 * b + 1 <> length palette)%nat ->
  let first :=
    colorScale log2 interpolateReds interpolateBlues quantileBin "quantile" (Some data) palette
      (JNumber v) in
  let second :=
    colorScale log2 interpolateReds interpolateBlues quantileBin "quantile" (Some data) first.2
      (JNumber v) in
  first.1 = reverse palette !! b /\ second.1 = palette !! b
  /\ first.1 <> second.1 /\ second.2 = palette.
Proof.
  intros Hnd Hbin Hlt Hmid. cbv zeta.
  destruct (colorScale_quantile_bin data palette v b Hbin) as [E1 E2].
  rewrite E1. cbn [fst snd]. rewrite E2. cbn [fst snd].
  split; [reflexivity|]. split; [reflexivity|]. split; [|reflexivity].
  rewrite reverse_lookup by exact Hlt.
  destruct (lookup_lt_is_Some_2 palette b Hlt) as [x Hx]. rewrite Hx.
  intros Hmirror.
  apply NoDup_ListNoDup in Hnd.
  pose proof (NoDup_lookup palette _ _ x Hnd Hmirror Hx) as Heq. lia.
Qed.

(** Two values in bins that mirror each other get the same colour when one is
    coloured right after the other. *)
Lemma quantile_mirror_bins_same_colour (data : dataset) (palette : list string)
    (v1 v2 : float) (b1 b2 : nat) :
  quantileBin (flat_map values (genes data)) (length palette) v1 = Some b1 ->
  quantileBin (flat_map values (genes data)) (length palette) v2 = Some b2 ->
  (b1 + b2 + 1 = length palette)%nat ->
  let first :=
    colorScale log2 interpolateReds interpolateBlues quantileBin "quantile" (Some data) palette
      (JNumber v1) in
  let second :=
    colorScale log2 interpolateReds interpolateBlues quantileBin "quantile" (Some data) first.2
      (JNumber v2) in
  second.1 = first.1.
Proof.
  intros H1 H2 Hsum. cbv zeta.
  destruct (colorScale_quantile_bin data palette v1 b1 H1) as [E1 _].
  destruct (colorScale_quantile_bin data palette v2 b2 H2) as [_ E2].
  rewrite E1. cbn [fst snd]. rewrite E2. cbn [fst snd].
  rewrite reverse_lookup by lia. f_equal. lia.
Qed.

End ColorScaleProperties.

End Pipeline.

(** * Closed instances

    The theorems above at concrete tables, with [integerToString] and
    [noStringCell] for the engine. *)

(** The tiers at the p-values 0.5, 0.05, 0.049 and 0.009. *)
Lemma marker_tiers_witness :
  (circleDrawn (JNumber 0.5%float) = false /\ circleRadius (JNumber 0.5%float) = 0) /\
  (circleDrawn (JNumber 0.05%float) = true /\ circleRadius (JNumber 0.05%float) = 2
   /\ circleFill (JNumber 0.05%float) = "#888") /\
  (circleDrawn (JNumber 0.049%float) = true /\ circleRadius (JNumber 0.049%float) = 3
   /\ circleFill (JNumber 0.049%float) = "black") /\
  (circleDrawn (JNumber 0.009%float) = true /\ circleRadius (JNumber 0.009%float) = 5
   /\ circleFill (JNumber 0.009%float) = "black").
Proof.
  split; [|split; [|split]].
  - apply (marker_tiers 0.5%float). reflexivity.
  - apply (marker_tiers 0.05%float); reflexivity.
  - apply (marker_tiers 0.049%float); reflexivity.
  - apply (marker_tiers 0.009%float). reflexivity.
Defined.

(** C5 as the specification states it fails at two p-values.  At 0.05 the
    specification has no visible marker, and the code draws the grey circle of
    radius 2; at [null] it has no visible marker, and the code, which compares
    [null] as 0, draws the black circle of radius 5. *)
Lemma marker_at_boundary_and_null :
  (circleDrawn (JNumber 0.05%float) = true /\ circleRadius (JNumber 0.05%float) = 2) /\
  (circleDrawn JNull = true /\ circleRadius JNull = 5 /\ circleFill JNull = "black").
Proof. repeat split; reflexivity. Qed.

(** A header row with the marker in lower case and white space around the
    name. *)
Lemma fold_change_headers_detected_witness :
  (exists i : nat,
      comparisonsOf ["Gene ID"; "log2fc  ( KD vs Ctrl )"; "LOG2FC(B)"] !! i
        = Some "log2fc  ( KD vs Ctrl )"
      /\ map shortName (comparisonsOf ["Gene ID"; "log2fc  ( KD vs Ctrl )"; "LOG2FC(B)"]) !! i
        = Some (trim " KD vs Ctrl "))
  /\ sublist (comparisonsOf ["Gene ID"; "log2fc  ( KD vs Ctrl )"; "LOG2FC(B)"])
       ["Gene ID"; "log2fc  ( KD vs Ctrl )"; "LOG2FC(B)"].
Proof.
  apply (fold_change_headers_detected
           ["Gene ID"; "log2fc  ( KD vs Ctrl )"; "LOG2FC(B)"]
           "log2fc  ( KD vs Ctrl )" " KD vs Ctrl ").
  - simpl. right. left. reflexivity.
  - exists "log2fc", "  ". repeat split; try reflexivity. discriminate.
Defined.

(** The example table is validated: its rows have identifiers, and a dataset
    comes out. *)
Lemma data_error_iff_no_gene_witness :
  (failsWithDataError (processExcelFile integerToString noStringCell exampleRows) <->
     exampleRows = [] \/ Forall (fun r => rowSkipped r = true) exampleRows)
  /\ (~ failsWithDataError (processExcelFile integerToString noStringCell exampleRows) ->
      exists data, processExcelFile integerToString noStringCell exampleRows = inr data).
Proof.
  apply (data_error_iff_no_gene integerToString noStringCell exampleRows).
  right. vm_compute. discriminate.
Defined.

(** The dataset of the example: one group, over both genes. *)
Lemma category_groups_partition_witness :
  partitionFrom 0 (categoryGroups exampleData) (Z.of_nat (length (genes exampleData)))
  /\ totalCount (categoryGroups exampleData) = Z.of_nat (length (genes exampleData))
  /\ (forall (k : nat) (a b : gene),
        genes exampleData !! k = Some a -> genes exampleData !! S k = Some b ->
        (exists g, In g (categoryGroups exampleData) /\ startIndex g = Z.of_nat (S k))
        <-> strictEq (category a) (category b) = false).
Proof.
  apply (category_groups_partition integerToString noStringCell exampleRows exampleData).
  vm_compute. reflexivity.
Defined.

(** The grouper and sorter on the genes of the colliding table. *)
Lemma grouper_not_a_permutation_witness :
  sortedGeneDataOf integerToString [geneA; geneB; geneC] = [geneC; geneB; geneC; geneB]
  /\ ~ Permutation [geneA; geneB; geneC] (sortedGeneDataOf integerToString [geneA; geneB; geneC]).
Proof.
  apply (grouper_not_a_permutation integerToString). vm_compute. reflexivity.
Defined.

(** The pipeline on the colliding table. *)
Lemma gene_count_off_on_collision_witness :
  Forall (fun r => rowSkipped r = false) collidingRows
  /\ exists data, processExcelFile integerToString noStringCell collidingRows = inr data
       /\ genes data = [geneC; geneB; geneC; geneB]
       /\ length (genes data) = 4%nat.
Proof.
  apply (gene_count_off_on_collision integerToString noStringCell). vm_compute. reflexivity.
Defined.

(** A table whose only columns are an identifier and a plain value. *)
Lemma no_comparison_column_is_schema_error_witness :
  exists e,
    processExcelFile integerToString noStringCell
      [[("Gene ID", CStr "A"); ("Value", CNum 1%float)]] = inl e
    /\ kindOf e = SchemaError.
Proof.
  apply (no_comparison_column_is_schema_error integerToString noStringCell
           [[("Gene ID", CStr "A"); ("Value", CNum 1%float)]]).
  - discriminate.
  - simpl. intros h [<-|[<-|[]]]; reflexivity.
Defined.


(** * Closed instances of the further properties *)

Lemma dataset_gene_shape_witness :
  length (comparisons exampleData) = length (comparisonColumns exampleData)
  /\ Forall (fun g => length (values g) = length (comparisonColumns exampleData)
                      /\ length (pValues g) = length (pValueColumns exampleData))
       (genes exampleData).
Proof.
  apply (dataset_gene_shape integerToString noStringCell exampleRows exampleData).
  vm_compute. reflexivity.
Defined.

Lemma dataset_identifiers_trimmed_witness :
  Forall (fun g => truthy (id g) = true /\ truthy (category g) = true
                   /\ forall s, id g = CStr s -> trim s = s /\ s <> "") (genes exampleData).
Proof.
  apply (dataset_identifiers_trimmed integerToString noStringCell exampleRows exampleData).
  vm_compute. reflexivity.
Defined.

Lemma no_category_column_uncategorized_witness :
  exists data,
    processExcelFile integerToString noStringCell blankPValueRows = inr data
    /\ Forall (fun g => category g = CStr "Uncategorized") (genes data).
Proof.
  eexists. split; [vm_compute; reflexivity|].
  eapply (no_category_column_uncategorized integerToString noStringCell blankPValueRows).
  - vm_compute. reflexivity.
  - simpl. intros h [<-|[<-|[<-|[]]]]; reflexivity.
  - simpl. intros r [<-|[<-|[]]]; reflexivity.
Defined.

Lemma dataset_categories_distinct_witness :
  distinctCells (categories exampleData)
  /\ (forall c, In c (categories exampleData) ->
        exists g, In g (genes exampleData) /\ category g = c)
  /\ (forall g, In g (genes exampleData) ->
        exists c, In c (categories exampleData) /\ strictEq (category g) c = true).
Proof.
  apply (dataset_categories_distinct integerToString noStringCell exampleRows exampleData).
  vm_compute. reflexivity.
Defined.


Lemma category_group_label_witness :
  strictEq (category (mkGene (CStr "A") (CStr "Lipid") [Some 1.2%float] [Some 0.03%float]))
    (groupCategory (mkGroup (CStr "Lipid") 0 1 2)) = true.
Proof.
  apply (category_group_label integerToString noStringCell exampleRows exampleData)
    with (k := 1%nat).
  - vm_compute. reflexivity.
  - simpl. left. reflexivity.
  - simpl. lia.
  - reflexivity.
Defined.

(** A gene with two comparison columns and one p-value column: its cell in
    the second comparison column holds the value 2 and has no marker. *)
Lemma no_marker_past_pValue_columns_witness :
  exists data g,
    processExcelFile integerToString noStringCell twoComparisonRows = inr data
    /\ comparisonColumns data = ["Log2FC (a)"; "Log2FC (b)"]
    /\ pValueColumns data = ["P value (a)"]
    /\ genes data = [g]
    /\ values g !! 1%nat = Some (Some 2%float)
    /\ circleDrawn (pValueAt g 1) = false /\ circleRadius (pValueAt g 1) = 0.
Proof.
  eexists. exists (mkGene (CStr "G") (CStr "Uncategorized") [Some 1%float; Some 2%float]
                     [Some 0.01%float]).
  split; [vm_compute; reflexivity|].
  split; [reflexivity|]. split; [reflexivity|]. split; [reflexivity|].
  split; [reflexivity|].
  eapply (no_marker_past_pValue_columns integerToString noStringCell twoComparisonRows).
  - vm_compute. reflexivity.
  - simpl. left. reflexivity.
  - simpl. lia.
Defined.


Lemma handleCellClick_toggles_witness :
  List.NoDup (handleCellClick [mkCell 0 0; mkCell 1 0] 0 0)
  /\ (In (mkCell 0 0) (handleCellClick [mkCell 0 0; mkCell 1 0] 0 0)
      <-> ~ In (mkCell 0 0) [mkCell 0 0; mkCell 1 0])
  /\ (forall c, c <> mkCell 0 0 ->
        (In c (handleCellClick [mkCell 0 0; mkCell 1 0] 0 0)
         <-> In c [mkCell 0 0; mkCell 1 0])).
Proof.
  apply (handleCellClick_toggles [mkCell 0 0; mkCell 1 0] 0 0).
  repeat constructor; simpl; intuition discriminate.
Defined.

Lemma exported_row_cells_witness :
  let g := mkGene (CStr "A") (CStr "Lipid") [Some 1.2%float] [Some 0.03%float] in
  getProp (exportRow exampleData g) "Gene ID" = Some (CStr "A")
  /\ getProp (exportRow exampleData g) "Category" = Some (CStr "Lipid")
  /\ (exists v, values g !! 0%nat = Some v
                /\ getProp (exportRow exampleData g) (log2fcHeader "Ctrl vs KD")
                   = Some (orNA v))
  /\ getProp (exportRow exampleData g) (pvalueHeader "Ctrl vs KD")
     = orNA <$> (pValues g !! 0%nat).
Proof.
  apply (exported_row_cells integerToString noStringCell exampleRows exampleData
           (mkGene (CStr "A") (CStr "Lipid") [Some 1.2%float] [Some 0.03%float])
           0 "Ctrl vs KD").
  - vm_compute. reflexivity.
  - simpl. right. left. reflexivity.
  - reflexivity.
  - intros [|j] Hj; [lia|discriminate].
Defined.


Lemma resized_column_width_witness :
  let refs := mkRefs (Some 1%nat) 100%float 80%float in
  let target := PrimFloat.add (startWidth refs) (PrimFloat.sub 40%float (startX refs)) in
  let next := handleResizerMouseMove refs 40%float [Some 60%float; Some 80%float] in
  (exists w, next !! 1%nat = Some (Some w)
     /\ (PrimFloat.is_nan target = false ->
         PrimFloat.leb minColWidth w = true /\ PrimFloat.leb target w = true
         /\ (w = minColWidth \/ w = target))
     /\ (PrimFloat.is_nan target = true -> PrimFloat.is_nan w = true))
  /\ (forall k, k <> 1%nat -> (k < length [Some 60%float; Some 80%float])%nat ->
        next !! k = [Some 60%float; Some 80%float] !! k)
  /\ length next = Nat.max (length [Some 60%float; Some 80%float]) 2.
Proof.
  apply (resized_column_width (mkRefs (Some 1%nat) 100%float 80%float) 40%float
           [Some 60%float; Some 80%float] 1).
  reflexivity.
Defined.

Lemma wrapHeaderText_keeps_text_witness :
  joinSpaces (wrapHeaderText sevenPerChar "Ctrl vs KD" 40%float "bold 12px Arial")
  = "Ctrl vs KD".
Proof.
  apply (wrapHeaderText_keeps_text sevenPerChar "Ctrl vs KD" 40%float "bold 12px Arial").
  simpl. intros w [<-|[<-|[<-|[]]]]; discriminate.
Defined.


Lemma one_group_per_category_witness :
  categoryGroups exampleData
  = groupsOfBlocks 0
      (map (fun c => (c, length (genesInCategory (genes exampleData) c)))
         (categories exampleData)).
Proof.
  apply (one_group_per_category integerToString noStringCell exampleRows exampleData).
  - vm_compute. reflexivity.
  - intros r v Hr Hv. simpl in Hr. destruct Hr as [<-|[<-|[]]];
      vm_compute in Hv; injection Hv as <-; eauto.
Defined.

Lemma category_box_is_group_witness :
  exists grp,
    In grp (categoryGroups exampleData) /\ groupCategory grp = CStr "Lipid"
    /\ categoryBox (genes exampleData) (CStr "Lipid")
       = Some (Z.to_nat (startIndex grp), Z.to_nat (count grp))
    /\ getCategoryColor (CStr "Lipid") <> None.
Proof.
  apply (category_box_is_group integerToString noStringCell exampleRows exampleData).
  - vm_compute. reflexivity.
  - intros r v Hr Hv. simpl in Hr. destruct Hr as [<-|[<-|[]]];
      vm_compute in Hv; injection Hv as <-; eauto.
  - simpl. left. reflexivity.
Defined.


Lemma comparison_columns_are_shaped_witness :
  In "Log2FC (Ctrl vs KD)" (headersOf exampleRows)
  /\ exists X, foldChangeShaped "Log2FC (Ctrl vs KD)" X
               /\ shortName "Log2FC (Ctrl vs KD)" = trim X.
Proof.
  apply (comparison_columns_are_shaped (headersOf exampleRows) "Log2FC (Ctrl vs KD)").
  simpl. left. reflexivity.
Defined.

Lemma dataset_gene_provenance_witness :
  Forall (fun g => exists r,
            In r exampleRows /\ geneIdOf r = Some (id g)
            /\ values g = map (fun h => numericOrNull noStringCell (get r h))
                            (comparisonColumns exampleData)
            /\ pValues g = map (fun h => numericOrNull noStringCell (get r h))
                             (pValueColumns exampleData))
    (genes exampleData).
Proof.
  apply (dataset_gene_provenance integerToString noStringCell exampleRows exampleData).
  vm_compute. reflexivity.
Defined.

Lemma dataset_genes_perm_witness :
  Permutation
    (geneDataOf noStringCell (comparisonsOf (headersOf exampleRows))
       (pValueColumnsOf (headersOf exampleRows))
       (categoryColOf (headersOf exampleRows)) exampleRows)
    (genes exampleData)
  /\ Z.of_nat (length (genes exampleData))
     = Z.of_nat (length exampleRows) - Z.of_nat (length (List.filter rowSkipped exampleRows)).
Proof.
  apply (dataset_genes_perm integerToString noStringCell exampleRows exampleData).
  - vm_compute. reflexivity.
  - intros r v Hr Hv. simpl in Hr. destruct Hr as [<-|[<-|[]]];
      vm_compute in Hv; injection Hv as <-; eauto.
Defined.



Lemma reimport_has_no_pValues_witness :
  pValueColumns reimportedExample = []
  /\ Forall (fun g => pValues g = []) (genes reimportedExample).
Proof.
  apply (reimport_has_no_pValues integerToString noStringCell exampleData reimportedExample).
  vm_compute. reflexivity.
Defined.


(** C8 as the specification words it fails for a name that is empty and for a
    name that holds a line break: the headers have the shape, the pattern's
    [.+] matches neither, and a table whose only fold-change header is one of
    them is refused. *)
Lemma header_without_one_line_name_not_detected :
  (shapedAsSpecified "Log2FC ()" ""
   /\ comparisonsOf ["Gene ID"; "Log2FC ()"] = []
   /\ processExcelFile integerToString noStringCell
        [[("Gene ID", CStr "A"); ("Log2FC ()", CNum 1%float)]]
      = inl NoComparisonColumns)
  /\ (shapedAsSpecified brokenHeader brokenName
      /\ comparisonsOf ["Gene ID"; brokenHeader] = []
      /\ processExcelFile integerToString noStringCell
           [[("Gene ID", CStr "A"); (brokenHeader, CNum 1%float)]]
         = inl NoComparisonColumns).
Proof.
  split; (split; [exists "Log2FC", " "; repeat split|split; vm_compute; reflexivity]).
Qed.

(** The first two cells of a render in the quantile mode, on the dataset of
    the example scenario and the palette as d3 ships it: -0.5 is in the lowest
    bin and 1.2 in the highest, and both cells get the same blue. *)
Lemma quantile_example_render :
  d3QuantileBin (flat_map values (genes exampleData)) 7 (-0.5)%float = Some 0%nat
  /\ d3QuantileBin (flat_map values (genes exampleData)) 7 1.2%float = Some 6%nat
  /\ renderColours (exampleColorScale "quantile" (Some exampleData)) rdBu7
       (cellValues exampleData)
     = ([Some "#2166ac"; Some "#2166ac"], rdBu7).
Proof. repeat split; vm_compute; reflexivity. Qed.

(** The cell of A in the example scenario, coloured twice in a row: red, then
    blue. *)
Lemma quantile_colour_flips_witness :
  let first := exampleColorScale "quantile" (Some exampleData) rdBu7 (JNumber 1.2%float) in
  let second := exampleColorScale "quantile" (Some exampleData) first.2 (JNumber 1.2%float) in
  first.1 = reverse rdBu7 !! 6%nat /\ second.1 = rdBu7 !! 6%nat
  /\ first.1 <> second.1 /\ second.2 = rdBu7.
Proof.
  apply (quantile_colour_flips noLog2 noRamp noRamp d3QuantileBin exampleData rdBu7
           1.2%float 6).
  - repeat (constructor;
      [simpl; intros H; repeat (destruct H as [H|H]; [discriminate H|]); exact H|]).
    constructor.
  - vm_compute. reflexivity.
  - simpl. lia.
  - simpl. lia.
Defined.
